(** * Photo sync orchestrator: state store, retry loop, run and command line

    A shallow embedding of [python/photo-sync.py]: the SQLite state store
    ([StateDB]), the per-asset retry loop and the run of the orchestrator
    ([PhotoSyncOrchestrator]) and the argument handling of [main], followed
    by the properties of the design document checked against them. *)

From Stdlib Require Import ZArith List String Ascii Bool Lia.
From Stdlib Require Import Sorting.Sorted Sorting.Permutation.
From Stdlib Require Import Floats.SpecFloat.
From stdpp Require Import base option strings pretty gmap.

Import ListNotations.
Local Open Scope string_scope.
Local Open Scope Z_scope.

(** ** Python values and exceptions *)

(** A Python [float] (an SQLite REAL): the binary64 value itself.  No
    arithmetic on these values takes part in the logic of the store. *)
Definition real : Type := spec_float.

(** The exceptions the modelled code raises or lets through.
    [KeyboardInterrupt] is the only one that is not an [Exception]. *)
Inductive exn : Type :=
| KeyError (key : string)
| ValueError (msg : string)
| IndexError (msg : string)
| ZeroDivisionError
| TimeoutError (msg : string)
| CalledProcessError (returncode : Z) (msg : string)
| RequestException (msg : string)
| OSError (msg : string)
| KeyboardInterrupt.

(** [isinstance(e, Exception)] *)
Definition is_Exception (e : exn) : bool :=
  match e with
  | KeyboardInterrupt => false
  | _ => true
  end.

(** [str(e)], as far as the code stores it. *)
Definition exn_str (e : exn) : string :=
  match e with
  | KeyError k => "'" +:+ k +:+ "'"
  | ValueError m => m
  | IndexError m => m
  | ZeroDivisionError => "division by zero"
  | TimeoutError m => m
  | CalledProcessError _ m => m
  | RequestException m => m
  | OSError m => m
  | KeyboardInterrupt => ""
  end.

(** The result of running a statement: it returns or it raises. *)
Inductive outcome (A : Type) : Type :=
| Ret (a : A)
| Raise (e : exn).
Arguments Ret {A} a.
Arguments Raise {A} e.

(** A computation over a mutable state [S].  What was written before an
    exception is raised stays written. *)
Definition M (S A : Type) : Type := S -> outcome A * S.

Definition ret {S A} (a : A) : M S A := fun s => (Ret a, s).
Definition raise {S A} (e : exn) : M S A := fun s => (Raise e, s).
Definition bind {S A B} (m : M S A) (k : A -> M S B) : M S B :=
  fun s => match m s with
           | (Ret a, s') => k a s'
           | (Raise e, s') => (Raise e, s')
           end.
Definition get {S} : M S S := fun s => (Ret s, s).
Definition put {S} (s : S) : M S unit := fun _ => (Ret tt, s).
Definition modify {S} (f : S -> S) : M S unit := fun s => (Ret tt, f s).

#[global] Instance M_ret {S} : MRet (M S) := fun A => @ret S A.
#[global] Instance M_bind {S} : MBind (M S) := fun A B k m => @bind S A B m k.

(** The state a computation leaves, and what it returned. *)
Definition exec {S A} (m : M S A) (s : S) : S := snd (m s).
Definition result {S A} (m : M S A) (s : S) : outcome A := fst (m s).

(** ** Byte order on TEXT values

    SQLite compares TEXT under the BINARY collation and Python compares
    [str] by code point; on the ASCII text handled here both are the
    lexicographic order of [String.compare]. *)
Definition text_le (a b : string) : bool := String.leb a b.

(** [s.startswith(prefix)] *)
Fixpoint starts_with (prefix s : string) : bool :=
  match prefix with
  | EmptyString => true
  | String a prefix' =>
    match s with
    | EmptyString => false
    | String b s' => Ascii.eqb a b && starts_with prefix' s'
    end
  end.

(** A stable sort on a TEXT key: an element goes in front of the first one
    whose key is not smaller, so elements with equal keys keep the order in
    which they arrived.  It stands for SQLite's sorter behind [ORDER BY] and
    for Python's [sorted]. *)
Section Sort.
Context {A : Type} (key : A -> string).

Fixpoint insert_sorted (x : A) (l : list A) : list A :=
  match l with
  | [] => [x]
  | y :: l' =>
    if text_le (key x) (key y) then x :: y :: l' else y :: insert_sorted x l'
  end.

Fixpoint sort_on (l : list A) : list A :=
  match l with
  | [] => []
  | x :: l' => insert_sorted x (sort_on l')
  end.
End Sort.

(** ** The state store: [class StateDB] *)

Module StateDB.

(** One row of table [assets]; a NULL column is [None].  [retry_count] is
    an SQLite INTEGER; it counts runs and stays far below the 63 bits it
    has, so the increment is the one of [Z]. *)
Record Row : Type := mkRow {
  asset_id : string;
  original_filename : string;
  asset_type : string;
  creation_date : string;
  status : string;
  immich_id : option string;
  error_message : option string;
  retry_count : Z;
  processed_at : option string;
  file_size : option Z;
  duration : option real;
  upload_bytes : option Z;
  upload_duration : option real
}.

(** The database file: table [assets] in rowid (insertion) order, and table
    [sync_metadata], keyed by its primary key. *)
Record DB : Type := mkDB {
  assets : list Row;
  sync_metadata : gmap string string
}.

(** What [_init_database] leaves in a file that did not exist. *)
Definition empty_db : DB := mkDB [] ∅.

Definition with_assets (f : list Row -> list Row) (db : DB) : DB :=
  mkDB (f (assets db)) (sync_metadata db).

Definition ids (tbl : list Row) : list string := map asset_id tbl.

(** The row whose primary key is [id]. *)
Fixpoint find_row (id : string) (tbl : list Row) : option Row :=
  match tbl with
  | [] => None
  | r :: tbl' => if String.eqb (asset_id r) id then Some r else find_row id tbl'
  end.

(** One asset descriptor of the list-assets response: a JSON object read as
    a Python [dict].  The values of the keys read here are strings, as the
    export tool writes them. *)
Definition asset_dict : Type := gmap string string.

(** [asset[key]] *)
Definition getitem (asset : asset_dict) (key : string) : outcome string :=
  match asset !! key with
  | Some v => Ret v
  | None => Raise (KeyError key)
  end.

(** [asset.get(key, default)] *)
Definition get_default (asset : asset_dict) (key default : string) : string :=
  match asset !! key with
  | Some v => v
  | None => default
  end.

(** The tuple [add_assets] builds for one descriptor; the elements are
    evaluated from left to right. *)
Definition asset_tuple (asset : asset_dict) : outcome Row :=
  match getitem asset "id" with
  | Raise e => Raise e
  | Ret id =>
    let fname := get_default asset "original_filename" "" in
    match getitem asset "type" with
    | Raise e => Raise e
    | Ret ty =>
      match getitem asset "creation_date" with
      | Raise e => Raise e
      | Ret cd =>
        Ret (mkRow id fname ty cd "pending" None None 0 None None None None None)
      end
    end
  end.

(** The list comprehension [assets_data]: the first failing descriptor
    raises and no list is built. *)
Fixpoint assets_data (assets : list asset_dict) : outcome (list Row) :=
  match assets with
  | [] => Ret []
  | a :: rest =>
    match asset_tuple a with
    | Raise e => Raise e
    | Ret r =>
      match assets_data rest with
      | Raise e => Raise e
      | Ret rs => Ret (r :: rs)
      end
    end
  end.

(** [INSERT OR IGNORE INTO assets ...] of one tuple: a row whose
    [asset_id] is already there makes the insert a no-op. *)
Definition insert_or_ignore (r : Row) (tbl : list Row) : list Row :=
  match find_row (asset_id r) tbl with
  | Some _ => tbl
  | None => (tbl ++ [r])%list
  end.

(** [executemany]: the tuples are inserted one after the other. *)
Definition executemany_insert (rs : list Row) (tbl : list Row) : list Row :=
  fold_left (fun t r => insert_or_ignore r t) rs tbl.

Definition add_assets (assets : list asset_dict) : M DB unit :=
  match assets_data assets with
  | Raise e => raise e
  | Ret rs => modify (with_assets (executemany_insert rs))
  end.

(** The WHERE clause of [get_pending_assets]. *)
Definition eligible (max_retries : Z) (r : Row) : bool :=
  String.eqb (status r) "pending"
  || (String.eqb (status r) "failed" && (retry_count r <? max_retries)).

(** [ORDER BY creation_date ASC]: the rows are sorted on that one key.  The
    statement names no second key; rows with the same [creation_date] come
    out in the order the scan of the table delivers them. *)
Definition order_by_creation_date (rows : list Row) : list Row :=
  sort_on creation_date rows.

Definition select_pending (max_retries : Z) (tbl : list Row) : list Row :=
  order_by_creation_date (List.filter (eligible max_retries) tbl).

Definition get_pending_assets (max_retries : Z) : M DB (list Row) :=
  fun db => (Ret (select_pending max_retries (assets db)), db).

(** [UPDATE assets SET ... WHERE asset_id=?] *)
Definition update_where_id (id : string) (f : Row -> Row) (tbl : list Row) : list Row :=
  map (fun r => if String.eqb (asset_id r) id then f r else r) tbl.

Definition set_completed (immich file_size upload_bytes : _) (upload_duration : real)
    (now : string) (r : Row) : Row :=
  mkRow (asset_id r) (original_filename r) (asset_type r) (creation_date r)
        "completed" (Some immich) (error_message r) (retry_count r) (Some now)
        (Some file_size) (duration r) (Some upload_bytes) (Some upload_duration).

(** [now] is the value of [datetime.now().isoformat()] at the call. *)
Definition mark_completed (id immich : string) (file_size upload_bytes : Z)
    (upload_duration : real) (now : string) : M DB unit :=
  modify (with_assets
    (update_where_id id (set_completed immich file_size upload_bytes upload_duration now))).

Definition set_failed (msg now : string) (r : Row) : Row :=
  mkRow (asset_id r) (original_filename r) (asset_type r) (creation_date r)
        "failed" (immich_id r) (Some msg) (retry_count r + 1) (Some now)
        (file_size r) (duration r) (upload_bytes r) (upload_duration r).

Definition mark_failed (id msg now : string) : M DB unit :=
  modify (with_assets (update_where_id id (set_failed msg now))).

(** [SELECT status, COUNT( * ) ... GROUP BY status], then [setdefault] for
    the three known statuses, then the total. *)
Record Stats : Type := mkStats {
  st_pending : Z;
  st_completed : Z;
  st_failed : Z;
  st_total : Z
}.

Definition count_status (s : string) (tbl : list Row) : Z :=
  Z.of_nat (List.length (List.filter (fun r => String.eqb (status r) s) tbl)).

Definition get_stats : M DB Stats :=
  fun db => (Ret (mkStats (count_status "pending" (assets db))
                          (count_status "completed" (assets db))
                          (count_status "failed" (assets db))
                          (Z.of_nat (List.length (assets db)))), db).

(** [INSERT OR REPLACE INTO sync_metadata] *)
Definition set_metadata (key value : string) : M DB unit :=
  modify (fun db => mkDB (assets db) (<[key := value]> (sync_metadata db))).

Definition get_metadata (key : string) : M DB (option string) :=
  fun db => (Ret (sync_metadata db !! key), db).

(** *** [backup_database]

    The directory of the state file, as the names of the files in it.
    [stamp] is [datetime.now().strftime('%Y-%m-%d_%H-%M-%S')] at the call;
    the path the method returns is the one of [backup_name stamp]. *)
Definition backup_name (stamp : string) : string :=
  "state_backup_" +:+ stamp +:+ ".db".

Fixpoint ends_with (suffix s : string) : bool :=
  String.eqb s suffix ||
  match s with
  | EmptyString => false
  | String _ s' => ends_with suffix s'
  end.

(** [glob.glob('state_backup_*.db')] keeps the names that start with the
    text before the star and, after it, end with the text behind it. *)
Definition glob_match (name : string) : bool :=
  starts_with "state_backup_" name
  && ends_with ".db" (String.substring 13 (String.length name - 13) name).

Definition glob_backups (dir : list string) : list string :=
  List.filter glob_match dir.

(** [shutil.copy2]: the target is created, or overwritten when a file of
    that name is there. *)
Definition copy_to (name : string) (dir : list string) : list string :=
  if existsb (String.eqb name) dir then dir else (dir ++ [name])%list.

(** [backups[:-5]] *)
Definition all_but_last5 {A} (l : list A) : list A :=
  firstn (List.length l - 5)%nat l.

(** [os.remove] of each name in [old]. *)
Definition remove_all (old dir : list string) : list string :=
  List.filter (fun f => negb (existsb (String.eqb f) old)) dir.

Definition backup_database (stamp : string) (dir : list string) : list string :=
  let dir1 := copy_to (backup_name stamp) dir in
  let backups := sort_on id (glob_backups dir1) in
  remove_all (all_but_last5 backups) dir1.


End StateDB.

(** ** The command line: the parser built in [main]

    [argparse] is modelled as CPython 3.11 ships it, for a parser that
    declares options only: how one argument string is classified
    ([_parse_optional]), how an option takes its argument, and what is left
    over at the end. *)

Module Cli.

(** The namespace [parse_args] returns. *)
Record Args : Type := mkArgs {
  log_level : string;
  type : string;
  screenshots_only : bool;
  no_screenshots : bool;
  workers : Z;
  resume : bool;
  reset : bool;
  dry_run : bool
}.

(** The defaults of the [add_argument] calls: a [store_true] option starts
    at [False] unless [default=] says otherwise, as [--no-screenshots]
    does. *)
Definition defaults : Args :=
  mkArgs "INFO" "all" false true 1 false false false.

Inductive action : Type :=
| Help | LogLevel | AssetType | ScreenshotsOnly | NoScreenshots
| Workers | Resume | Reset | DryRun.

Definition option_string_actions : list (string * action) :=
  [ ("-h", Help); ("--help", Help);
    ("--log-level", LogLevel); ("--type", AssetType);
    ("--screenshots-only", ScreenshotsOnly); ("--no-screenshots", NoScreenshots);
    ("--workers", Workers); ("--resume", Resume); ("--reset", Reset);
    ("--dry-run", DryRun) ].

(** [nargs]: the options that take one argument; the others take none. *)
Definition takes_argument (a : action) : bool :=
  match a with
  | LogLevel | AssetType | Workers => true
  | _ => false
  end.

Fixpoint lookup_option (s : string) (tbl : list (string * action)) : option action :=
  match tbl with
  | [] => None
  | (o, a) :: tbl' => if String.eqb o s then Some a else lookup_option s tbl'
  end.

(** [s.split('=', 1)] when [s] holds an equals sign. *)
Fixpoint split_eq (s : string) : option (string * string) :=
  match s with
  | EmptyString => None
  | String c s' =>
    if Ascii.eqb c "="%char then Some (EmptyString, s')
    else match split_eq s' with
         | Some (l, r) => Some (String c l, r)
         | None => None
         end
  end.

Fixpoint contains_char (c : ascii) (s : string) : bool :=
  match s with
  | EmptyString => false
  | String d s' => Ascii.eqb c d || contains_char c s'
  end.

Definition is_digit (c : ascii) : bool :=
  let n := N_of_ascii c in (48 <=? n)%N && (n <=? 57)%N.

Fixpoint all_digits (s : string) : bool :=
  match s with
  | EmptyString => true
  | String c s' => is_digit c && all_digits s'
  end.

(** Digits, a dot, and at least one digit: the tail of [-\d*\.\d+]. *)
Fixpoint digits_dot_digits (s : string) : bool :=
  match s with
  | EmptyString => false
  | String c s' =>
    if Ascii.eqb c "."%char
    then negb (String.eqb s' "") && all_digits s'
    else is_digit c && digits_dot_digits s'
  end.

(** [$] of a regular expression also matches in front of a newline that
    ends the string. *)
Fixpoint chomp (s : string) : string :=
  match s with
  | EmptyString => EmptyString
  | String c EmptyString => if Ascii.eqb c "010"%char then EmptyString else s
  | String c s' => String c (chomp s')
  end.

(** [_negative_number_matcher]: [^-\d+$|^-\d*\.\d+$] *)
Definition negative_number_like (s : string) : bool :=
  match chomp s with
  | String "-"%char s' =>
    (negb (String.eqb s' "") && all_digits s') || digits_dot_digits s'
  | _ => false
  end.

(** How one argument string in front of any [--] is read. *)
Inductive arg_class : Type :=
| Positional
| Optional (a : action) (option_string : string) (explicit_arg : option string)
| UnknownOptional
| AmbiguousOption.

(** [_get_option_tuples]: the options an abbreviation may stand for. *)
Definition option_tuples (s : string) : list (action * string * option string) :=
  match s with
  | String "-"%char (String "-"%char _) =>
    let '(option_prefix, explicit_arg) :=
      match split_eq s with
      | Some (l, r) => (l, Some r)
      | None => (s, None)
      end in
    flat_map (fun '(o, a) =>
                if starts_with option_prefix o then [(a, o, explicit_arg)] else [])
             option_string_actions
  | String "-"%char _ =>
    let short_option_prefix := String.substring 0 2 s in
    let short_explicit_arg := String.substring 2 (String.length s - 2) s in
    flat_map (fun '(o, a) =>
                if String.eqb o short_option_prefix then [(a, o, Some short_explicit_arg)]
                else if starts_with s o then [(a, o, None)] else [])
             option_string_actions
  | _ => []
  end.

(** [_parse_optional] *)
Definition parse_optional (s : string) : arg_class :=
  match s with
  | EmptyString => Positional
  | String c _ =>
    if negb (Ascii.eqb c "-"%char) then Positional
    else match lookup_option s option_string_actions with
    | Some a => Optional a s None
    | None =>
      if (String.length s =? 1)%nat then Positional
      else
        let by_equals :=
          match split_eq s with
          | Some (o, explicit_arg) =>
            match lookup_option o option_string_actions with
            | Some a => Some (Optional a o (Some explicit_arg))
            | None => None
            end
          | None => None
          end in
        match by_equals with
        | Some cl => cl
        | None =>
          match option_tuples s with
          | [(a, o, explicit_arg)] => Optional a o explicit_arg
          | _ :: _ :: _ => AmbiguousOption
          | [] =>
            if negative_number_like s then Positional
            else if contains_char " "%char s then Positional
            else UnknownOptional
          end
        end
    end
  end.

(** [int(s)] on ASCII text: blanks around, a sign, decimal digits with
    single underscores between them. *)
Definition is_space (c : ascii) : bool :=
  let n := N_of_ascii c in
  ((9 <=? n)%N && (n <=? 13)%N) || ((28 <=? n)%N && (n <=? 32)%N).

Fixpoint lstrip (s : string) : string :=
  match s with
  | String c s' => if is_space c then lstrip s' else s
  | EmptyString => EmptyString
  end.

Fixpoint rstrip (s : string) : string :=
  match s with
  | EmptyString => EmptyString
  | String c s' =>
    match rstrip s' with
    | EmptyString => if is_space c then EmptyString else String c EmptyString
    | t => String c t
    end
  end.

(** The digits of [s] folded into [acc]; [after_digit] says that the
    character before was a digit, which an underscore needs on both sides. *)
Fixpoint digits_value (s : string) (acc : Z) (after_digit : bool) : option Z :=
  match s with
  | EmptyString => if after_digit then Some acc else None
  | String c s' =>
    if is_digit c then digits_value s' (10 * acc + (Z.of_N (N_of_ascii c) - 48)) true
    else if Ascii.eqb c "_"%char && after_digit
         then match s' with
              | String d _ => if is_digit d then digits_value s' acc false else None
              | EmptyString => None
              end
         else None
  end.

Definition py_int (s : string) : option Z :=
  match rstrip (lstrip s) with
  | String "-"%char t => option_map Z.opp (digits_value t 0 false)
  | String "+"%char t => digits_value t 0 false
  | t => digits_value t 0 false
  end.

(** What [parse_args] does: it returns the namespace, or the parser leaves
    the process ([parser.exit] after the help, [parser.error] with status 2). *)
Inductive parse_result : Type :=
| Parsed (args : Args)
| ParserExit (status : Z) (message : string).

Definition member (s : string) (l : list string) : bool := existsb (String.eqb s) l.

(** The action of an option that takes an argument, on its argument. *)
Definition store (a : action) (value : string) (ns : Args) : option Args :=
  match a with
  | LogLevel =>
    if member value ["DEBUG"; "INFO"; "WARNING"; "ERROR"]
    then Some (mkArgs value (type ns) (screenshots_only ns) (no_screenshots ns)
                      (workers ns) (resume ns) (reset ns) (dry_run ns))
    else None
  | AssetType =>
    if member value ["image"; "video"; "all"]
    then Some (mkArgs (log_level ns) value (screenshots_only ns) (no_screenshots ns)
                      (workers ns) (resume ns) (reset ns) (dry_run ns))
    else None
  | Workers =>
    match py_int value with
    | Some n => Some (mkArgs (log_level ns) (type ns) (screenshots_only ns)
                             (no_screenshots ns) n (resume ns) (reset ns) (dry_run ns))
    | None => None
    end
  | _ => None
  end.

(** The [store_true] actions. *)
Definition store_true (a : action) (ns : Args) : Args :=
  match a with
  | ScreenshotsOnly =>
    mkArgs (log_level ns) (type ns) true (no_screenshots ns)
           (workers ns) (resume ns) (reset ns) (dry_run ns)
  | NoScreenshots =>
    mkArgs (log_level ns) (type ns) (screenshots_only ns) true
           (workers ns) (resume ns) (reset ns) (dry_run ns)
  | Resume =>
    mkArgs (log_level ns) (type ns) (screenshots_only ns) (no_screenshots ns)
           (workers ns) true (reset ns) (dry_run ns)
  | Reset =>
    mkArgs (log_level ns) (type ns) (screenshots_only ns) (no_screenshots ns)
           (workers ns) (resume ns) true (dry_run ns)
  | DryRun =>
    mkArgs (log_level ns) (type ns) (screenshots_only ns) (no_screenshots ns)
           (workers ns) (resume ns) (reset ns) true
  | _ => ns
  end.

(** [-hxyz]: single-dash flags written together; every further letter has
    to be a flag of its own, and [-h] is the only one. *)
Fixpoint all_h (s : string) : bool :=
  match s with
  | EmptyString => true
  | String c s' => Ascii.eqb c "h"%char && all_h s'
  end.

Definition is_positional_like (s : string) : bool :=
  match parse_optional s with
  | Positional => true
  | _ => false
  end.

(** The first pass of [_parse_known_args] reads every argument string in
    front of a [--]; an ambiguous abbreviation ends the parse there, before
    any action is taken. *)
Fixpoint ambiguous_before_separator (argv : list string) : bool :=
  match argv with
  | [] => false
  | s :: rest =>
    if String.eqb s "--" then false
    else match parse_optional s with
         | AmbiguousOption => true
         | _ => ambiguous_before_separator rest
         end
  end.

(** The second pass: the options are consumed from left to right; [extras]
    collects what no action took.  From a [--] on ([after_separator]) every
    string is a positional one, and this parser declares no positional. *)
Fixpoint parse_loop (argv : list string) (ns : Args) (extras : list string)
    (after_separator : bool) : parse_result :=
  match argv with
  | [] =>
    match extras with
    | [] => Parsed ns
    | _ => ParserExit 2 "unrecognized arguments"
    end
  | s :: rest =>
    if after_separator then parse_loop rest ns (extras ++ [s])%list true
    else if String.eqb s "--" then parse_loop rest ns (extras ++ [s])%list true
    else match parse_optional s with
    | Positional => parse_loop rest ns (extras ++ [s])%list false
    | UnknownOptional => parse_loop rest ns (extras ++ [s])%list false
    | AmbiguousOption => ParserExit 2 "ambiguous option"
    | Optional Help o explicit_arg =>
      match explicit_arg with
      | None => ParserExit 0 "usage"
      | Some e =>
        if String.eqb o "-h" && negb (String.eqb e "") && all_h e
        then ParserExit 0 "usage"
        else ParserExit 2 "ignored explicit argument"
      end
    | Optional a o explicit_arg =>
      if takes_argument a then
        match explicit_arg with
        | Some v =>
          match store a v ns with
          | Some ns' => parse_loop rest ns' extras false
          | None => ParserExit 2 "invalid argument value"
          end
        | None =>
          match rest with
          | [] => ParserExit 2 "expected one argument"
          | v :: rest1 =>
            if negb (String.eqb v "--") && is_positional_like v then
              match store a v ns with
              | Some ns' => parse_loop rest1 ns' extras false
              | None => ParserExit 2 "invalid argument value"
              end
            else ParserExit 2 "expected one argument"
          end
        end
      else
        match explicit_arg with
        | Some _ => ParserExit 2 "ignored explicit argument"
        | None => parse_loop rest (store_true a ns) extras false
        end
    end
  end.

Definition parse_args (argv : list string) : parse_result :=
  if ambiguous_before_separator argv then ParserExit 2 "ambiguous option"
  else parse_loop argv defaults [] false.

(** One turn of the loop on its own: the parse ends, or it goes on with
    what is left of the command line. *)
Inductive turn : Type :=
| Done (r : parse_result)
| Continue (rest : list string) (ns : Args) (extras : list string)
           (after_separator : bool).

Definition parse_turn (s : string) (rest : list string) (ns : Args)
    (extras : list string) (after_separator : bool) : turn :=
  if after_separator then Continue rest ns (extras ++ [s])%list true
  else if String.eqb s "--" then Continue rest ns (extras ++ [s])%list true
  else match parse_optional s with
  | Positional => Continue rest ns (extras ++ [s])%list false
  | UnknownOptional => Continue rest ns (extras ++ [s])%list false
  | AmbiguousOption => Done (ParserExit 2 "ambiguous option")
  | Optional Help o explicit_arg =>
    match explicit_arg with
    | None => Done (ParserExit 0 "usage")
    | Some e =>
      if String.eqb o "-h" && negb (String.eqb e "") && all_h e
      then Done (ParserExit 0 "usage")
      else Done (ParserExit 2 "ignored explicit argument")
    end
  | Optional a o explicit_arg =>
    if takes_argument a then
      match explicit_arg with
      | Some v =>
        match store a v ns with
        | Some ns' => Continue rest ns' extras false
        | None => Done (ParserExit 2 "invalid argument value")
        end
      | None =>
        match rest with
        | [] => Done (ParserExit 2 "expected one argument")
        | v :: rest1 =>
          if negb (String.eqb v "--") && is_positional_like v then
            match store a v ns with
            | Some ns' => Continue rest1 ns' extras false
            | None => Done (ParserExit 2 "invalid argument value")
            end
          else Done (ParserExit 2 "expected one argument")
        end
      end
    else
      match explicit_arg with
      | Some _ => Done (ParserExit 2 "ignored explicit argument")
      | None => Continue rest (store_true a ns) extras false
      end
  end.

End Cli.

(** ** The orchestrator: [class PhotoSyncOrchestrator] *)

Module Orchestrator.
Import StateDB.

(** The values read from [config.cfg]. *)
Record Config : Type := mkConfig {
  max_retries : Z;
  retry_delays : list Z;
  progress_update_interval : Z
}.

(** What one pass through the [try] block of the retry loop does: the
    export, the upload and the cleanup went through, or one of them raised. *)
Inductive attempt_outcome : Type :=
| Uploaded (immich_id : string) (file_size : Z) (upload_duration : real)
| Raises (e : exn).

(** What [list-assets] answers through [_call_swift_binary]. *)
Inductive discovery_reply : Type :=
| ReplyList (assets : list asset_dict)
| ReplyNotList
| ReplyRaises (e : exn).

(** Everything outside the process: the export tool and the upload target
    (what attempt [k] on an asset does), the operator (a SIGINT or SIGTERM
    delivered before the loop or while an attempt runs), the clock (the
    [n]-th reading, in both formats used) and the formatting of floats. *)
Record Env : Type := mkEnv {
  env_vars_set : bool;
  validate_environment : outcome unit;
  discover : list string -> discovery_reply;
  attempt_result : string -> nat -> attempt_outcome;
  signal_before_processing : bool;
  signal_during : string -> nat -> bool;
  isoformat : nat -> string;
  strftime : nat -> string;
  fmt_percent : Z -> Z -> string
}.

(** The object state and the files it owns. *)
Record Orch : Type := mkOrch {
  db : DB;
  directory : list string;
  shutdown_requested : bool;
  slept : list Z;
  ticks : nat
}.

Definition lift_db {A} (m : M DB A) : M Orch A :=
  fun o => let '(r, d) := m (db o) in
           (r, mkOrch d (directory o) (shutdown_requested o) (slept o) (ticks o)).

(** [_signal_handler] *)
Definition signal_handler : M Orch unit :=
  modify (fun o => mkOrch (db o) (directory o) true (slept o) (ticks o)).

Definition deliver (signal : bool) : M Orch unit :=
  if signal then signal_handler else ret tt.

(** [time.sleep(delay)]: a negative length is refused; the log keeps the
    delay in milliseconds, as read from [retry_delays] before the division
    by [1000.0]. *)
Definition sleep_ms (delay : Z) : M Orch unit :=
  if delay <? 0 then raise (ValueError "sleep length must be non-negative")
  else modify (fun o => mkOrch (db o) (directory o) (shutdown_requested o)
                               (slept o ++ [delay])%list (ticks o)).

Definition tick : M Orch nat :=
  fun o => (Ret (ticks o),
            mkOrch (db o) (directory o) (shutdown_requested o) (slept o) (S (ticks o))).

(** [l[i]] on a Python list. *)
Definition py_index (l : list Z) (i : Z) : outcome Z :=
  let n := Z.of_nat (List.length l) in
  let j := if i <? 0 then i + n else i in
  if (0 <=? j) && (j <? n)
  then match nth_error l (Z.to_nat j) with
       | Some v => Ret v
       | None => Raise (IndexError "list index out of range")
       end
  else Raise (IndexError "list index out of range").

(** The retry policy of the [except] branch: after a failed attempt, wait
    and go on, or give up. *)
Inductive decision : Type :=
| RetryAfter (delay_ms : Z)
| Exhausted.

Definition backoff (cfg : Config) (attempt : Z) : outcome decision :=
  if attempt <? max_retries cfg - 1
  then match py_index (retry_delays cfg)
                      (Z.min attempt (Z.of_nat (List.length (retry_delays cfg)) - 1)) with
       | Ret d => Ret (RetryAfter d)
       | Raise e => Raise e
       end
  else Ret Exhausted.

Section Run.
Variable env : Env.
Variable cfg : Config.

(** The body of [for attempt in range(max_retries)], over the attempts
    still to make. *)
Fixpoint attempts (id : string) (todo : list nat) : M Orch bool :=
  match todo with
  | [] => ret false
  | attempt :: rest =>
    deliver (signal_during env id attempt) ≫= λ _,
    match attempt_result env id attempt with
    | Uploaded immich size dur =>
      n ← tick;
      lift_db (mark_completed id immich size size dur (isoformat env n)) ≫= λ _,
      ret true
    | Raises e =>
      if is_Exception e then
        match backoff cfg (Z.of_nat attempt) with
        | Raise e' => raise e'
        | Ret (RetryAfter d) => sleep_ms d ≫= λ _, attempts id rest
        | Ret Exhausted =>
          n ← tick;
          lift_db (mark_failed id (exn_str e) (isoformat env n)) ≫= λ _,
          ret false
        end
      else raise e
    end
  end.

(** [range(max_retries)] *)
Definition range (n : Z) : list nat := seq 0 (Z.to_nat n).

Definition _process_asset_with_retries (asset : Row) : M Orch bool :=
  attempts (asset_id asset) (range (max_retries cfg)).

(** The periodic write of the progress into [sync_metadata]. *)
Definition update_progress (i : nat) : M Orch unit :=
  if progress_update_interval cfg =? 0 then raise ZeroDivisionError
  else if (Z.of_nat i + 1) mod progress_update_interval cfg =? 0 then
    stats ← lift_db get_stats;
    lift_db (set_metadata "progress_percent"
               (fmt_percent env (st_completed stats) (st_total stats))) ≫= λ _,
    n ← tick;
    lift_db (set_metadata "last_progress_update" (isoformat env n))
  else ret tt.

(** [for i, asset in enumerate(pending_assets)] *)
Fixpoint process_loop (i : nat) (pending : list Row) : M Orch unit :=
  match pending with
  | [] => ret tt
  | asset :: rest =>
    fun o =>
      if shutdown_requested o then (Ret tt, o)
      else (_process_asset_with_retries asset ≫= λ _,
            update_progress i ≫= λ _,
            process_loop (S i) rest) o
  end.

Definition _process_assets : M Orch unit :=
  pending ← lift_db (get_pending_assets (max_retries cfg));
  match pending with
  | [] => ret tt
  | _ => process_loop 0 pending
  end.

(** The exit code [_print_summary] returns. *)
Definition _print_summary : M Orch Z :=
  stats ← lift_db get_stats;
  n ← tick;
  lift_db (set_metadata "last_updated" (isoformat env n)) ≫= λ _,
  ret (if st_failed stats =? 0 then 0 else 1).

(** The argument list [_discover_assets] hands to the export tool. *)
Definition swift_args (args : Cli.Args) : list string :=
  (["list-assets"]
   ++ (if String.eqb (Cli.type args) "all" then [] else ["--type"; Cli.type args])
   ++ (if Cli.no_screenshots args then ["--no-screenshots"]
       else if Cli.screenshots_only args then ["--screenshots-only"] else []))%list.

(** [str(b)] for a [bool] *)
Definition str_bool (b : bool) : string := if b then "True" else "False".

Definition _discover_assets (args : Cli.Args) : M Orch Z :=
  match discover env (swift_args args) with
  | ReplyRaises e => raise e
  | ReplyNotList => raise (ValueError "Expected list of assets from Swift binary")
  | ReplyList assets =>
    lift_db (add_assets assets) ≫= λ _,
    n ← tick;
    lift_db (set_metadata "started_at" (isoformat env n)) ≫= λ _,
    lift_db (set_metadata "total_assets" (pretty (List.length assets))) ≫= λ _,
    lift_db (set_metadata "asset_types" (Cli.type args)) ≫= λ _,
    lift_db (set_metadata "include_screenshots"
               (str_bool (negb (Cli.no_screenshots args)))) ≫= λ _,
    ret (Z.of_nat (List.length assets))
  end.

(** The discovery phase of [run]: skipped on a resume that finds the
    count of an earlier discovery. *)
Definition discovery_phase (args : Cli.Args) : M Orch Z :=
  total ← lift_db (get_metadata "total_assets");
  match Cli.resume args, total with
  | true, Some t =>
    match Cli.py_int t with
    | Some n => lift_db get_stats ≫= λ _, ret n
    | None => raise (ValueError "invalid literal for int() with base 10")
    end
  | _, _ => _discover_assets args
  end.

(** The [try] block of [run] from the discovery on. *)
Definition run_body (args : Cli.Args) : M Orch Z :=
  discovery_phase args ≫= λ _,
  if Cli.dry_run args then ret 0
  else
    deliver (signal_before_processing env) ≫= λ _,
    _process_assets ≫= λ _,
    _print_summary.

(** The files [run] works on: the state file, when there is one, and the
    names in its directory. *)
Record World : Type := mkWorld {
  state_file : option DB;
  siblings : list string
}.

(** [StateDB(db_path)], after the backup of a resume or the removal of a
    reset. *)
Definition open_store (args : Cli.Args) (w : World) : Orch :=
  match Cli.resume args, state_file w with
  | true, Some d =>
    mkOrch d (backup_database (strftime env 0) (siblings w)) false [] 1
  | _, _ =>
    let d := match state_file w with
             | Some d => if Cli.reset args then empty_db else d
             | None => empty_db
             end in
    mkOrch d (siblings w) false [] 0
  end.

(** The two [except] clauses of [run]. *)
Definition exit_code_of (r : outcome Z) : Z :=
  match r with
  | Ret code => code
  | Raise KeyboardInterrupt => 1
  | Raise _ => 2
  end.

Definition run (args : Cli.Args) (w : World) : Z * World :=
  match validate_environment env with
  | Raise e => (exit_code_of (Raise e), w)
  | Ret _ =>
    let '(r, o) := run_body args (open_store args w) in
    (exit_code_of r, mkWorld (Some (db o)) (directory o))
  end.

(** How the process ends. *)
Inductive exit_status : Type :=
| SystemExit (code : Z) (message : string)
| Traceback (e : exn).

(** [main], from the parsed arguments on. *)
Definition main (argv : list string) (w : World) : exit_status * World :=
  match Cli.parse_args argv with
  | Cli.ParserExit status message => (SystemExit status message, w)
  | Cli.Parsed args =>
    if Cli.screenshots_only args && Cli.no_screenshots args
    then (SystemExit 2 "Cannot use both --screenshots-only and --no-screenshots", w)
    else if Cli.resume args && Cli.reset args
    then (SystemExit 2 "Cannot use both --resume and --reset", w)
    else if negb (env_vars_set env)
    then (Traceback (ValueError "IMMICH_API_URL and IMMICH_API_KEY must be set in .env file"), w)
    else let '(code, w') := run args w in (SystemExit code "", w')
  end.

End Run.

End Orchestrator.

(** ** Vocabulary of the statements *)

Module Vocabulary.
Import StateDB Orchestrator.


(** The table holds a row with the [asset_id] of [r]. *)
Definition present (tbl : list Row) (r : Row) : Prop :=
  find_row (asset_id r) tbl <> None.


(** No stored [retry_count] is smaller in [d'] than in [d], and no row of
    [d] is missing from [d']. *)
Definition retry_le (d d' : DB) : Prop :=
  forall id r, find_row id (assets d) = Some r ->
    exists r', find_row id (assets d') = Some r' /\ retry_count r <= retry_count r'.

(** What one call of the retry loop does to the database: it marks the
    asset completed and returns [True], or it marks it failed once and
    returns [False], or it leaves the database alone. *)
Inductive loop_effect (id : string) (d : DB) : outcome bool -> DB -> Prop :=
| effect_completed immich size dur now :
    loop_effect id d (Ret true) (exec (mark_completed id immich size size dur now) d)
| effect_failed msg now :
    loop_effect id d (Ret false) (exec (mark_failed id msg now) d)
| effect_none r :
    r <> Ret true -> loop_effect id d r d.

(** A computation through which no [retry_count] decreases. *)
Definition mono {A} (m : M Orch A) : Prop :=
  forall o, retry_le (db o) (db (exec m o)).


(** The backups in a directory as [backup_database] lists them. *)
Definition backups (dir : list string) : list string :=
  sort_on id (glob_backups dir).



(** A flag of the two screenshot flags that is set in [ns] is set in
    [ns']. *)
Definition keeps_flags (ns ns' : Cli.Args) : Prop :=
  (Cli.no_screenshots ns = true -> Cli.no_screenshots ns' = true)
  /\ (Cli.screenshots_only ns = true -> Cli.screenshots_only ns' = true).

End Vocabulary.

(** ** Sample data *)

Module Samples.
Import StateDB Orchestrator Vocabulary.

(** A well-formed descriptor of the list-assets response. *)
Definition descriptor (id type creation_date filename : string) : asset_dict :=
  <["id" := id]> (<["type" := type]> (<["creation_date" := creation_date]>
    (<["original_filename" := filename]> ∅))).


(** One asset, discovered and then uploaded. *)
Definition completed_db : DB :=
  exec (mark_completed "A" "immich-1" 2048 2048 (S754_zero false) "2024-01-02T10:00:00")
       (exec (add_assets [ descriptor "A" "image" "2024-01-01T00:00:00Z" "a.jpg" ])
             empty_db).




Definition cfg3 : Config := mkConfig 3 [1000; 2000; 5000] 10.
Definition cfg5 : Config := mkConfig 5 [1000; 2000; 5000] 10.

Definition two_assets : list asset_dict :=
  [ descriptor "A" "image" "2024-01-01T00:00:00Z" "a.jpg";
    descriptor "B" "video" "2024-01-02T00:00:00Z" "b.mov" ].

(** The two assets, discovered and not yet processed. *)
Definition pending_db : DB := exec (add_assets two_assets) empty_db.

(** The orchestrator on an open store, before anything happened. *)
Definition fresh_orch (d : DB) : Orch := mkOrch d [] false [] 0.

(** A world in which every upload is rejected and nobody interrupts. *)
Definition failing_env : Env :=
  mkEnv true (Ret tt) (fun _ => ReplyList two_assets)
        (fun _ _ => Raises (RequestException "503 Server Error"))
        false (fun _ _ => false)
        (fun _ => "2024-01-03T09:00:00") (fun _ => "2024-01-03_09-00-00")
        (fun _ _ => "0.00").

(** A world in which every upload goes through and the operator sends an
    interrupt while the first attempt on asset A runs. *)
Definition interrupted_env : Env :=
  mkEnv true (Ret tt) (fun _ => ReplyList two_assets)
        (fun id _ => Uploaded ("immich-" +:+ id) 2048 (S754_zero false))
        false (fun id k => String.eqb id "A" && Nat.eqb k 0)
        (fun _ => "2024-01-03T09:00:00") (fun _ => "2024-01-03_09-00-00")
        (fun _ _ => "50.00").

(** No state file, no backups. *)
Definition no_files : World := mkWorld None [].

End Samples.

(** ** Invariants of the store and of a run *)

Module Invariants.
Import StateDB Orchestrator Vocabulary.

(** The descriptor holds the three keys that [add_assets] subscripts. *)
Definition has_required_keys (a : asset_dict) : Prop :=
  is_Some (a !! "id") /\ is_Some (a !! "type") /\ is_Some (a !! "creation_date").

(** What the code lets a row be: a pending row as the insert leaves it; a
    completed row with the identifier and the measures of its upload; a
    failed row with a count, a message and a time.  No statement ever writes
    [duration]. *)
Definition wf_row (r : Row) : Prop :=
  0 <= retry_count r
  /\ duration r = None
  /\ ((status r = "pending" /\ retry_count r = 0 /\ immich_id r = None
       /\ error_message r = None /\ processed_at r = None /\ file_size r = None
       /\ upload_bytes r = None /\ upload_duration r = None)
      \/ (status r = "completed" /\ immich_id r <> None /\ file_size r <> None
          /\ upload_bytes r <> None /\ upload_duration r <> None
          /\ processed_at r <> None)
      \/ (status r = "failed" /\ 1 <= retry_count r /\ error_message r <> None
          /\ processed_at r <> None)).

(** A table without two rows of one [asset_id] whose rows are all as
    above. *)
Definition wf (d : DB) : Prop :=
  List.NoDup (ids (assets d)) /\ Forall wf_row (assets d).

(** A computation of the orchestrator that keeps a property of the
    database. *)
Definition keeps (P : DB -> Prop) {A} (m : M Orch A) : Prop :=
  forall o, P (db o) -> P (db (exec m o)).

(** The two transitions of the asset [id] keep the property [P]. *)
Definition marks_keep (P : DB -> Prop) (id : string) : Prop :=
  forall d, P d ->
    (forall immich now fs ub ud, P (exec (mark_completed id immich fs ub ud now) d))
    /\ (forall msg now, P (exec (mark_failed id msg now) d)).

(** Writing a value of the run metadata keeps the property [P]. *)
Definition metadata_keeps (P : DB -> Prop) : Prop :=
  forall k v d, P d -> P (exec (set_metadata k v) d).

(** [k] calls of the retry loop on one asset, as [k] runs in a row make
    them. *)
Fixpoint calls (env : Env) (cfg : Config) (asset : Row) (k : nat) : M Orch unit :=
  match k with
  | O => mret tt
  | S k' => _process_asset_with_retries env cfg asset ≫= λ _, calls env cfg asset k'
  end.

(** The wait behind the failed attempt [i]: [delays[min(i, len(delays)-1)]]
    for a list that is not empty. *)
Definition delay_at (cfg : Config) (i : nat) : Z :=
  nth (Z.to_nat (Z.min (Z.of_nat i) (Z.of_nat (List.length (retry_delays cfg)) - 1)))
      (retry_delays cfg) 0.

(** A world without an interrupt in which every attempt ends as the
    [try] block expects it: with an upload, or with an [Exception]. *)
Definition undisturbed (env : Env) : Prop :=
  (forall id k, signal_during env id k = false)
  /\ (forall id k, match attempt_result env id k with
                   | Uploaded _ _ _ => True
                   | Raises e => is_Exception e = true
                   end).

(** A configuration with which the loops run through: at least one attempt,
    delays to choose from, none of them negative, and a progress interval
    that is not zero. *)
Definition usable (cfg : Config) : Prop :=
  0 < max_retries cfg
  /\ retry_delays cfg <> []
  /\ Forall (fun d => 0 <= d) (retry_delays cfg)
  /\ progress_update_interval cfg <> 0.

(** The row is in one of the two states in which the retry loop leaves an
    asset. *)
Definition terminal (r : Row) : Prop :=
  status r = "completed" \/ status r = "failed".

(** The store holds [t] as the count of the assets found. *)
Definition records_total (t : string) (d : DB) : Prop :=
  sync_metadata d !! "total_assets" = Some t.

(** A computation that leaves a raised shutdown flag raised. *)
Definition flag_stays {A} (m : M Orch A) : Prop :=
  forall o, shutdown_requested o = true -> shutdown_requested (exec m o) = true.

End Invariants.

(** ** More sample data *)

Module MoreSamples.
Import StateDB Orchestrator Vocabulary Samples.

(** The row of asset A as the discovery inserts it. *)
Definition row_A : Row :=
  mkRow "A" "a.jpg" "image" "2024-01-01T00:00:00Z" "pending"
        None None 0 None None None None None.

(** A world in which the first attempt on every asset fails and the
    second goes through. *)
Definition flaky_env : Env :=
  mkEnv true (Ret tt) (fun _ => ReplyList two_assets)
        (fun id k => match k with
                     | O => Raises (TimeoutError "Swift binary timed out")
                     | _ => Uploaded ("immich-" +:+ id) 2048 (S754_zero false)
                     end)
        false (fun _ _ => false)
        (fun _ => "2024-01-03T09:00:00") (fun _ => "2024-01-03_09-00-00")
        (fun _ _ => "50.00").

(** A world in which the export tool does not answer the discovery. *)
Definition broken_tool_env : Env :=
  mkEnv true (Ret tt) (fun _ => ReplyRaises (TimeoutError "Swift binary timed out"))
        (fun _ _ => Raises (RequestException "503 Server Error"))
        false (fun _ _ => false)
        (fun _ => "2024-01-03T09:00:00") (fun _ => "2024-01-03_09-00-00")
        (fun _ _ => "0.00").

(** A configuration that allows no attempt at all. *)
Definition cfg0 : Config := mkConfig 0 [1000; 2000; 5000] 10.

(** A configuration whose progress interval is zero. *)
Definition cfg_interval0 : Config := mkConfig 3 [1000; 2000; 5000] 0.


End MoreSamples.

(** * Properties *)

(** ** The order on TEXT values *)










(** ** The stable sort *)

Import Vocabulary.

Section SortFacts.
Context {A : Type} (key : A -> string).

Lemma insert_sorted_perm (x : A) (l : list A) :
  Permutation (insert_sorted key x l) (x :: l).
Proof.
  induction l as [|y l IH]; simpl; [reflexivity|].
  destruct (text_le (key x) (key y)); [reflexivity|].
  rewrite IH. apply perm_swap.
Qed.

Lemma sort_on_perm (l : list A) : Permutation (sort_on key l) l.
Proof.
  induction l as [|x l IH]; simpl; [reflexivity|].
  rewrite insert_sorted_perm. constructor. exact IH.
Qed.







(** An element above all the others goes to the end. *)
Lemma insert_sorted_last (x : A) (l : list A) :
  Forall (fun y => text_le (key x) (key y) = false) l ->
  insert_sorted key x l = (l ++ [x])%list.
Proof.
  induction 1 as [|y l Hy Hl IH]; simpl; [reflexivity|].
  rewrite Hy, IH. reflexivity.
Qed.
End SortFacts.

(** ** The state store *)

Module StateDBFacts.
Import StateDB Vocabulary.


Lemma find_row_app (id : string) (t1 t2 : list Row) :
  find_row id (t1 ++ t2)
  = match find_row id t1 with Some r => Some r | None => find_row id t2 end.
Proof.
  induction t1 as [|r t1 IH]; simpl; [reflexivity|].
  destruct (String.eqb (asset_id r) id); [reflexivity|exact IH].
Qed.

Lemma find_row_none (id : string) (tbl : list Row) :
  find_row id tbl = None <-> ~ In id (ids tbl).
Proof.
  induction tbl as [|r tbl IH]; simpl.
  - tauto.
  - destruct (String.eqb_spec (asset_id r) id) as [E|E].
    + split; [discriminate|]. intros H. exfalso. apply H. left. exact E.
    + rewrite IH. tauto.
Qed.

Lemma find_row_some (id : string) (tbl : list Row) (r : Row) :
  find_row id tbl = Some r -> In r tbl /\ asset_id r = id.
Proof.
  induction tbl as [|x tbl IH]; simpl; [discriminate|].
  destruct (String.eqb_spec (asset_id x) id) as [E|E].
  - intros [= ->]. auto.
  - intros H. destruct (IH H). auto.
Qed.

(** *** Insert or ignore *)

Lemma insert_or_ignore_extends (r : Row) (tbl : list Row) :
  exists new, insert_or_ignore r tbl = (tbl ++ new)%list.
Proof.
  unfold insert_or_ignore. destruct (find_row (asset_id r) tbl).
  - exists []. rewrite app_nil_r. reflexivity.
  - exists [r]. reflexivity.
Qed.

Lemma executemany_insert_extends (rs tbl : list Row) :
  exists new, executemany_insert rs tbl = (tbl ++ new)%list.
Proof.
  unfold executemany_insert. revert tbl.
  induction rs as [|r rs IH]; intros tbl; simpl.
  - exists []. rewrite app_nil_r. reflexivity.
  - destruct (insert_or_ignore_extends r tbl) as [n1 E1].
    destruct (IH (insert_or_ignore r tbl)) as [n2 E2].
    exists (n1 ++ n2)%list. rewrite E2, E1, <- app_assoc. reflexivity.
Qed.

Lemma find_row_extends (id : string) (tbl new : list Row) (r : Row) :
  find_row id tbl = Some r -> find_row id (tbl ++ new) = Some r.
Proof. intros H. rewrite find_row_app, H. reflexivity. Qed.

Lemma present_extends (tbl new : list Row) (r : Row) :
  present tbl r -> present (tbl ++ new) r.
Proof.
  unfold present. rewrite find_row_app.
  destruct (find_row (asset_id r) tbl); congruence.
Qed.

Lemma insert_or_ignore_present (r : Row) (tbl : list Row) :
  present (insert_or_ignore r tbl) r.
Proof.
  unfold present, insert_or_ignore.
  destruct (find_row (asset_id r) tbl) eqn:E.
  - congruence.
  - rewrite find_row_app, E. simpl. rewrite String.eqb_refl. discriminate.
Qed.

Lemma executemany_insert_present (rs tbl : list Row) :
  Forall (present (executemany_insert rs tbl)) rs.
Proof.
  unfold executemany_insert. revert tbl.
  induction rs as [|r rs IH]; intros tbl; simpl; constructor.
  - destruct (executemany_insert_extends rs (insert_or_ignore r tbl)) as [n E].
    unfold executemany_insert in E. rewrite E.
    apply present_extends, insert_or_ignore_present.
  - apply IH.
Qed.

Lemma executemany_insert_noop (rs tbl : list Row) :
  Forall (present tbl) rs -> executemany_insert rs tbl = tbl.
Proof.
  unfold executemany_insert. induction 1 as [|r rs Hr Hrs IH]; simpl.
  - reflexivity.
  - assert (E : insert_or_ignore r tbl = tbl).
    { unfold insert_or_ignore. unfold present in Hr.
      destruct (find_row (asset_id r) tbl); [reflexivity|congruence]. }
    rewrite E. exact IH.
Qed.

Lemma executemany_insert_idem (rs tbl : list Row) :
  executemany_insert rs (executemany_insert rs tbl) = executemany_insert rs tbl.
Proof. apply executemany_insert_noop, executemany_insert_present. Qed.

(** The rows [add_assets] adds are pending rows with no attempt counted. *)
Lemma asset_tuple_fresh (a : asset_dict) (r : Row) :
  asset_tuple a = Ret r -> status r = "pending" /\ retry_count r = 0.
Proof.
  unfold asset_tuple.
  destruct (getitem a "id"); [|discriminate].
  destruct (getitem a "type"); [|discriminate].
  destruct (getitem a "creation_date"); [|discriminate].
  intros [= <-]. split; reflexivity.
Qed.

(** *** Updates by primary key *)


Lemma find_row_update (id : string) (f : Row -> Row) (tbl : list Row) (r : Row) :
  (forall x, asset_id (f x) = asset_id x) ->
  find_row id tbl = Some r ->
  find_row id (update_where_id id f tbl) = Some (f r).
Proof.
  intros Hf. unfold update_where_id.
  induction tbl as [|x tbl IH]; simpl; [discriminate|].
  destruct (String.eqb_spec (asset_id x) id) as [E|E].
  - intros [= ->]. simpl. rewrite Hf.
    destruct (String.eqb_spec (asset_id r) id); [reflexivity|contradiction].
  - intros H. simpl.
    destruct (String.eqb_spec (asset_id x) id); [contradiction|]. apply IH, H.
Qed.

(** *** The eligibility query *)

Lemma eligible_spec (m : Z) (r : Row) :
  eligible m r = true
  <-> status r = "pending" \/ (status r = "failed" /\ retry_count r < m).
Proof.
  unfold eligible.
  rewrite orb_true_iff, andb_true_iff, !String.eqb_eq, Z.ltb_lt. tauto.
Qed.

Lemma select_pending_perm (m : Z) (tbl : list Row) :
  Permutation (select_pending m tbl) (List.filter (eligible m) tbl).
Proof. apply sort_on_perm. Qed.

Lemma select_pending_In (m : Z) (tbl : list Row) (r : Row) :
  In r (select_pending m tbl) <-> In r tbl /\ eligible m r = true.
Proof.
  rewrite <- filter_In. split; apply Permutation_in.
  - apply select_pending_perm.
  - symmetry. apply select_pending_perm.
Qed.



End StateDBFacts.

(** ** Claims on the state store *)

Module StateDBClaims.
Import StateDB StateDBFacts Samples Vocabulary.

(** C1, as stated, fails: [mark_failed] on a completed asset returns
    normally and the row is rewritten. *)
Lemma mark_failed_completed_not_rejected :
  ~ (forall (db : DB) (id msg now : string) (r : Row),
        find_row id (assets db) = Some r ->
        status r = "completed" ->
        (exists e, result (mark_failed id msg now) db = Raise e)
        /\ exec (mark_failed id msg now) db = db).
Proof.
  intros H.
  destruct (H completed_db "A" "upload failed" "2024-01-03T09:00:00"
              (mkRow "A" "a.jpg" "image" "2024-01-01T00:00:00Z" "completed"
                     (Some "immich-1") None 0 (Some "2024-01-02T10:00:00")
                     (Some 2048) None (Some 2048) (Some (S754_zero false))))
    as [[e He] _].
  - vm_compute. reflexivity.
  - reflexivity.
  - vm_compute in He. discriminate He.
Qed.

(** C1, amended: [mark_failed] on an asset whose status is 'completed'
    returns without an error and rewrites the row: the status becomes
    'failed', the message and the time are stored and [retry_count] grows by
    one, while the remote id and the upload metrics of the success stay as
    they were. *)
Theorem mark_failed_on_completed (db : DB) (id msg now : string) (r : Row) :
  find_row id (assets db) = Some r ->
  status r = "completed" ->
  result (mark_failed id msg now) db = Ret tt
  /\ exists r',
       find_row id (assets (exec (mark_failed id msg now) db)) = Some r'
       /\ status r' = "failed"
       /\ error_message r' = Some msg
       /\ retry_count r' = retry_count r + 1
       /\ processed_at r' = Some now
       /\ immich_id r' = immich_id r
       /\ file_size r' = file_size r
       /\ upload_bytes r' = upload_bytes r
       /\ upload_duration r' = upload_duration r.
Proof.
  intros Hr _. split; [reflexivity|].
  exists (set_failed msg now r). split.
  - unfold exec, mark_failed, modify, with_assets. simpl.
    apply find_row_update; [reflexivity|exact Hr].
  - repeat split.
Qed.

Lemma mark_failed_on_completed_witness :
  result (mark_failed "A" "upload failed" "2024-01-03T09:00:00") completed_db = Ret tt
  /\ exists r',
       find_row "A" (assets (exec (mark_failed "A" "upload failed" "2024-01-03T09:00:00")
                                  completed_db)) = Some r'
       /\ status r' = "failed"
       /\ error_message r' = Some "upload failed"
       /\ retry_count r' = 0 + 1
       /\ processed_at r' = Some "2024-01-03T09:00:00"
       /\ immich_id r' = Some "immich-1"
       /\ file_size r' = Some 2048
       /\ upload_bytes r' = Some 2048
       /\ upload_duration r' = Some (S754_zero false).
Proof.
  apply (mark_failed_on_completed completed_db "A" "upload failed" "2024-01-03T09:00:00"
           (mkRow "A" "a.jpg" "image" "2024-01-01T00:00:00Z" "completed"
                  (Some "immich-1") None 0 (Some "2024-01-02T10:00:00")
                  (Some 2048) None (Some 2048) (Some (S754_zero false)))).
  - vm_compute. reflexivity.
  - reflexivity.
Defined.

Lemma add_assets_keeps_NoDup (rs tbl : list Row) :
  List.NoDup (ids tbl) -> List.NoDup (ids (executemany_insert rs tbl)).
Proof.
  unfold executemany_insert. revert tbl.
  induction rs as [|r rs IH]; intros tbl H; simpl; [exact H|].
  apply IH. unfold insert_or_ignore.
  destruct (find_row (asset_id r) tbl) eqn:E; [exact H|].
  apply find_row_none in E. unfold ids in *.
  rewrite map_app. simpl. apply List.NoDup_app.
  - exact H.
  - constructor; [intros []|constructor].
  - intros x Hx [<-|[]]. contradiction.
Qed.

(** C4: the bulk insert run a second time with the same assets returns the
    same result and leaves the same table as the first run; the rows of the
    table before the insert are still there, in place and unchanged, so an
    [asset_id] that was present keeps its row, and no [asset_id] comes to
    occur twice. *)
Theorem add_assets_idempotent (S : list asset_dict) (db : DB) :
  add_assets S (exec (add_assets S) db) = add_assets S db
  /\ (exists new, assets (exec (add_assets S) db) = (assets db ++ new)%list)
  /\ (forall id r, find_row id (assets db) = Some r ->
                   find_row id (assets (exec (add_assets S) db)) = Some r)
  /\ (List.NoDup (ids (assets db)) -> List.NoDup (ids (assets (exec (add_assets S) db))))
  /\ sync_metadata (exec (add_assets S) db) = sync_metadata db.
Proof.
  unfold exec, add_assets. destruct (assets_data S) as [rs|e].
  - unfold modify, with_assets. simpl.
    rewrite executemany_insert_idem.
    destruct (executemany_insert_extends rs (assets db)) as [new E].
    split; [reflexivity|]. split; [exists new; exact E|].
    split; [|split; [apply add_assets_keeps_NoDup|reflexivity]].
    intros id r H. rewrite E. apply find_row_extends, H.
  - unfold raise. simpl. split; [reflexivity|].
    split; [exists []; rewrite app_nil_r; reflexivity|]. auto.
Qed.

(** C5: no row that the eligibility query returns has the status
    'completed', whatever the table and whatever [max_retries]. *)
Theorem completed_never_eligible (max_retries : Z) (db : DB) :
  exists rows,
    get_pending_assets max_retries db = (Ret rows, db)
    /\ Forall (fun r => status r <> "completed") rows.
Proof.
  exists (select_pending max_retries (assets db)). split; [reflexivity|].
  apply List.Forall_forall. intros r Hr.
  apply select_pending_In in Hr. destruct Hr as [_ He].
  apply eligible_spec in He. destruct He as [E|[E _]]; rewrite E; discriminate.
Qed.





End StateDBClaims.

(** ** The retry loop and the run *)

Module OrchestratorFacts.
Import StateDB StateDBFacts Orchestrator Samples Vocabulary.

Ltac run_m :=
  unfold mbind, M_bind, bind, mret, M_ret, ret, raise, modify, lift_db,
         tick, sleep_ms, deliver, signal_handler in *; cbn in *.

Lemma retry_le_refl (d : DB) : retry_le d d.
Proof. intros id r H. exists r. split; [exact H|lia]. Qed.

Lemma retry_le_trans (d1 d2 d3 : DB) :
  retry_le d1 d2 -> retry_le d2 d3 -> retry_le d1 d3.
Proof.
  intros H12 H23 id r H.
  destruct (H12 id r H) as (r2 & H2 & L2).
  destruct (H23 id r2 H2) as (r3 & H3 & L3).
  exists r3. split; [exact H3|lia].
Qed.

Lemma find_row_update_any (id' id : string) (f : Row -> Row) (tbl : list Row) :
  (forall x, asset_id (f x) = asset_id x) ->
  find_row id' (update_where_id id f tbl)
  = option_map (fun r => if String.eqb (asset_id r) id then f r else r)
               (find_row id' tbl).
Proof.
  intros Hf. unfold update_where_id.
  induction tbl as [|x tbl IH]; simpl; [reflexivity|].
  destruct (String.eqb (asset_id x) id) eqn:E.
  - rewrite Hf. destruct (String.eqb (asset_id x) id'); [|exact IH].
    simpl. rewrite E. reflexivity.
  - destruct (String.eqb (asset_id x) id'); [|exact IH].
    simpl. rewrite E. reflexivity.
Qed.

Lemma retry_le_update (id : string) (f : Row -> Row) (d : DB) :
  (forall x, asset_id (f x) = asset_id x) ->
  (forall x, retry_count x <= retry_count (f x)) ->
  retry_le d (with_assets (update_where_id id f) d).
Proof.
  intros Hid Hrc id' r H. simpl.
  rewrite find_row_update_any by exact Hid. rewrite H. simpl.
  eexists. split; [reflexivity|].
  destruct (String.eqb (asset_id r) id); [apply Hrc|lia].
Qed.

Lemma retry_le_mark_completed (id immich now : string) (fs ub : Z) (ud : real) (d : DB) :
  retry_le d (exec (mark_completed id immich fs ub ud now) d).
Proof. apply retry_le_update; intros x; simpl; [reflexivity|lia]. Qed.

Lemma retry_le_mark_failed (id msg now : string) (d : DB) :
  retry_le d (exec (mark_failed id msg now) d).
Proof. apply retry_le_update; intros x; simpl; [reflexivity|lia]. Qed.

Lemma retry_le_add_assets (S : list asset_dict) (d : DB) :
  retry_le d (exec (add_assets S) d).
Proof.
  intros id r H. exists r. split; [|lia].
  unfold exec, add_assets. destruct (assets_data S) as [rs|e]; simpl; [|exact H].
  destruct (executemany_insert_extends rs (assets d)) as [new E].
  rewrite E. apply find_row_extends, H.
Qed.

Lemma retry_le_set_metadata (k v : string) (d : DB) :
  retry_le d (exec (set_metadata k v) d).
Proof. intros id r H. exists r. split; [exact H|lia]. Qed.

Lemma bind_eq {S A B} (m : M S A) (k : A -> M S B) (s : S) :
  (m ≫= k) s
  = match m s with
    | (Ret a, s') => k a s'
    | (Raise e, s') => (Raise e, s')
    end.
Proof. reflexivity. Qed.

Lemma deliver_db (b : bool) (o : Orch) :
  exists o', deliver b o = (Ret tt, o') /\ db o' = db o.
Proof. destruct b; eexists; split; reflexivity. Qed.

Lemma attempts_effect (env : Env) (cfg : Config) (id : string) (todo : list nat) (o : Orch) :
  loop_effect id (db o) (result (attempts env cfg id todo) o)
              (db (exec (attempts env cfg id todo) o)).
Proof.
  unfold result, exec. revert o.
  induction todo as [|k todo IH]; intros o.
  - apply effect_none. discriminate.
  - cbn [attempts]. rewrite bind_eq.
    destruct (deliver_db (signal_during env id k) o) as (o1 & -> & <-).
    destruct (attempt_result env id k) as [immich size dur|e].
    + cbn. apply effect_completed.
    + destruct (is_Exception e).
      * destruct (backoff cfg (Z.of_nat k)) as [[d|]|e'].
        -- rewrite bind_eq. unfold sleep_ms.
           destruct (d <? 0); cbn; [apply effect_none; discriminate|].
           apply (IH (mkOrch _ _ _ _ _)).
        -- cbn. apply effect_failed.
        -- cbn. apply effect_none. discriminate.
      * cbn. apply effect_none. discriminate.
Qed.

Lemma loop_effect_retry_le (id : string) (d d' : DB) (r : outcome bool) :
  loop_effect id d r d' -> retry_le d d'.
Proof.
  destruct 1.
  - apply retry_le_mark_completed.
  - apply retry_le_mark_failed.
  - apply retry_le_refl.
Qed.

(** *** The backoff schedule *)

Lemma py_index_clamped (l : list Z) (i : Z) :
  l <> [] -> 0 <= i ->
  py_index l (Z.min i (Z.of_nat (List.length l) - 1))
  = Ret (nth (Z.to_nat (Z.min i (Z.of_nat (List.length l) - 1))) l 0).
Proof.
  intros Hl Hi. unfold py_index.
  assert (Hn : 0 < Z.of_nat (List.length l)).
  { destruct l; [contradiction|]. simpl List.length. lia. }
  set (j := Z.min i (Z.of_nat (List.length l) - 1)).
  assert (Hj : 0 <= j < Z.of_nat (List.length l)) by (unfold j; lia).
  destruct (Z.ltb_spec j 0) as [?|_]; [lia|].
  destruct (Z.leb_spec 0 j) as [_|?]; [|lia].
  destruct (Z.ltb_spec j (Z.of_nat (List.length l))) as [_|?]; [|lia].
  simpl. destruct (nth_error l (Z.to_nat j)) eqn:E.
  - f_equal. symmetry. apply nth_error_nth. exact E.
  - apply nth_error_None in E. lia.
Qed.

Lemma backoff_retry (cfg : Config) (i : Z) :
  retry_delays cfg <> [] -> 0 <= i -> i < max_retries cfg - 1 ->
  backoff cfg i
  = Ret (RetryAfter (nth (Z.to_nat (Z.min i (Z.of_nat (List.length (retry_delays cfg)) - 1)))
                         (retry_delays cfg) 0)).
Proof.
  intros Hl Hi Hm. unfold backoff.
  destruct (Z.ltb_spec i (max_retries cfg - 1)) as [_|?]; [|lia].
  rewrite py_index_clamped by assumption. reflexivity.
Qed.

Lemma backoff_exhausted (cfg : Config) (i : Z) :
  max_retries cfg - 1 <= i -> backoff cfg i = Ret Exhausted.
Proof.
  intros Hm. unfold backoff.
  destruct (Z.ltb_spec i (max_retries cfg - 1)) as [?|_]; [lia|reflexivity].
Qed.

(** *** A call of the retry loop in which every attempt fails *)

Section AllFail.
Variables (env : Env) (cfg : Config) (id : string).
Hypothesis fails : forall k, exists e,
  attempt_result env id k = Raises e /\ is_Exception e = true.
Hypothesis delays : retry_delays cfg <> [].
Hypothesis nonneg : Forall (fun d => 0 <= d) (retry_delays cfg).

Lemma attempts_all_fail (n k : nat) (o : Orch) :
  Z.of_nat (k + n) = max_retries cfg -> (0 < n)%nat ->
  exists msg now,
    result (attempts env cfg id (seq k n)) o = Ret false
    /\ db (exec (attempts env cfg id (seq k n)) o) = exec (mark_failed id msg now) (db o)
    /\ List.length (slept (exec (attempts env cfg id (seq k n)) o))
       = (List.length (slept o) + (n - 1))%nat.
Proof.
  unfold result, exec. revert k o.
  induction n as [|n IH]; intros k o Hk Hn; [lia|].
  cbn [seq attempts]. rewrite bind_eq.
  destruct (deliver_db (signal_during env id k) o) as (o1 & E1 & Hdb).
  assert (Hsl : slept o1 = slept o).
  { destruct (signal_during env id k); cbn in E1; injection E1 as <-; reflexivity. }
  rewrite E1.
  destruct (fails k) as (e & -> & ->).
  destruct n as [|n].
  - rewrite backoff_exhausted by lia.
    exists (exn_str e), (isoformat env (ticks o1)).
    rewrite <- Hdb, <- Hsl. split; [reflexivity|]. split; [reflexivity|].
    run_m. lia.
  - rewrite backoff_retry by (try assumption; lia).
    set (d := nth _ (retry_delays cfg) 0).
    set (o2 := mkOrch (db o1) (directory o1) (shutdown_requested o1)
                      (slept o1 ++ [d]) (ticks o1)).
    assert (Hd0 : 0 <= d).
  { rewrite List.Forall_forall in nonneg. apply nonneg. unfold d.
    apply nth_In. destruct (retry_delays cfg); [contradiction|].
    simpl List.length. lia. }
  assert (Esl : sleep_ms d o1 = (Ret (), o2)).
  { unfold sleep_ms. destruct (Z.ltb_spec d 0); [lia|reflexivity]. }
  rewrite bind_eq, Esl.
    destruct (IH (S k) o2) as (msg & now & Hr & Hd & Hs); [lia|lia|].
    exists msg, now.
    change (db o2) with (db o1) in Hd. rewrite Hdb in Hd.
    change (slept o2) with (slept o1 ++ [d])%list in Hs.
    rewrite length_app, Hsl in Hs. simpl List.length in Hs.
    split; [exact Hr|]. split; [exact Hd|].
    etransitivity; [exact Hs|lia].
Qed.
End AllFail.

(** *** Monotonicity of [retry_count] through a run *)

Lemma mono_ret {A} (a : A) : mono (mret a : M Orch A).
Proof. intros o. apply retry_le_refl. Qed.

Lemma mono_raise {A} (e : exn) : mono (raise e : M Orch A).
Proof. intros o. apply retry_le_refl. Qed.

Lemma mono_bind {A B} (m : M Orch A) (k : A -> M Orch B) :
  mono m -> (forall a, mono (k a)) -> mono (m ≫= k).
Proof.
  intros Hm Hk o. unfold exec. rewrite bind_eq.
  specialize (Hm o). unfold exec in Hm.
  destruct (m o) as [[a|e] o1]; simpl in *; [|exact Hm].
  eapply retry_le_trans; [exact Hm|apply Hk].
Qed.

Lemma mono_lift_db {A} (m : M DB A) :
  (forall d, retry_le d (exec m d)) -> mono (lift_db m).
Proof.
  intros H o. specialize (H (db o)). unfold exec, lift_db in *.
  destruct (m (db o)) as [r d]. exact H.
Qed.

Lemma mono_tick : mono tick.
Proof. intros o. apply retry_le_refl. Qed.

Lemma mono_deliver (b : bool) : mono (deliver b).
Proof. intros o. destruct b; apply retry_le_refl. Qed.

Lemma mono_get_stats : forall d, retry_le d (exec get_stats d).
Proof. intros d. apply retry_le_refl. Qed.

Lemma mono_get_metadata (k : string) : forall d, retry_le d (exec (get_metadata k) d).
Proof. intros d. apply retry_le_refl. Qed.

Lemma mono_get_pending (m : Z) : forall d, retry_le d (exec (get_pending_assets m) d).
Proof. intros d. apply retry_le_refl. Qed.

Create HintDb mono.

#[local] Hint Resolve mono_ret mono_raise mono_tick mono_deliver mono_lift_db
  mono_get_stats mono_get_metadata mono_get_pending retry_le_set_metadata
  retry_le_add_assets retry_le_mark_completed retry_le_mark_failed : mono.

Ltac mono_step :=
  repeat first
    [ apply mono_bind; [|intros ?]
    | progress auto with mono ].

Lemma mono_attempts (env : Env) (cfg : Config) (id : string) (todo : list nat) :
  mono (attempts env cfg id todo).
Proof.
  intros o. eapply loop_effect_retry_le. apply attempts_effect.
Qed.

Lemma mono_update_progress (env : Env) (cfg : Config) (i : nat) :
  mono (update_progress env cfg i).
Proof.
  unfold update_progress.
  destruct (progress_update_interval cfg =? 0); [auto with mono|].
  destruct (_ =? 0); mono_step.
Qed.

Lemma mono_process_loop (env : Env) (cfg : Config) (pending : list Row) (i : nat) :
  mono (process_loop env cfg i pending).
Proof.
  revert i. induction pending as [|a rest IH]; intros i o; cbn [process_loop].
  - apply retry_le_refl.
  - unfold exec. destruct (shutdown_requested o); [apply retry_le_refl|].
    apply (mono_bind (_process_asset_with_retries env cfg a)).
    + apply mono_attempts.
    + intros _. apply mono_bind; [apply mono_update_progress|].
      intros _. apply IH.
Qed.

Lemma mono_process_assets (env : Env) (cfg : Config) : mono (_process_assets env cfg).
Proof.
  unfold _process_assets. apply mono_bind; [auto with mono|].
  intros [|a rest]; [auto with mono|apply mono_process_loop].
Qed.

Lemma mono_print_summary (env : Env) : mono (_print_summary env).
Proof. unfold _print_summary. mono_step. Qed.

Lemma mono_discover_assets (env : Env) (args : Cli.Args) : mono (_discover_assets env args).
Proof.
  unfold _discover_assets. destruct (discover env _); mono_step.
Qed.

Lemma mono_discovery_phase (env : Env) (args : Cli.Args) : mono (discovery_phase env args).
Proof.
  unfold discovery_phase. apply mono_bind; [auto with mono|].
  intros total. destruct (Cli.resume args), total as [t|];
    try apply mono_discover_assets.
  destruct (Cli.py_int t); mono_step.
Qed.

Lemma mono_run_body (env : Env) (cfg : Config) (args : Cli.Args) :
  mono (run_body env cfg args).
Proof.
  unfold run_body. apply mono_bind; [apply mono_discovery_phase|].
  intros _. destruct (Cli.dry_run args); [auto with mono|].
  apply mono_bind; [auto with mono|]. intros _.
  apply mono_bind; [apply mono_process_assets|]. intros _.
  apply mono_print_summary.
Qed.

End OrchestratorFacts.

(** ** Claims on the retry loop and the run *)

Module OrchestratorClaims.
Import StateDB StateDBFacts Orchestrator Samples OrchestratorFacts Vocabulary.

(** C2, as stated, fails: with [max_retries = 3] an asset whose three
    attempts all fail ends with [retry_count] 1, not 3. *)
Lemma retry_count_not_attempt_count :
  ~ (forall (env : Env) (cfg : Config) (o : Orch) (asset r' : Row),
        find_row (asset_id asset) (assets (db o)) = Some asset ->
        retry_delays cfg <> [] ->
        Forall (fun d => 0 <= d) (retry_delays cfg) ->
        0 <= max_retries cfg ->
        (forall k, exists e,
            attempt_result env (asset_id asset) k = Raises e /\ is_Exception e = true) ->
        find_row (asset_id asset)
                 (assets (db (exec (_process_asset_with_retries env cfg asset) o)))
          = Some r' ->
        retry_count r' = retry_count asset + max_retries cfg).
Proof.
  intros H.
  pose (a := mkRow "A" "a.jpg" "image" "2024-01-01T00:00:00Z" "pending"
                   None None 0 None None None None None).
  specialize (H failing_env cfg3 (fresh_orch pending_db) a
                (set_failed "503 Server Error" "2024-01-03T09:00:00" a)).
  assert (E : retry_count (set_failed "503 Server Error" "2024-01-03T09:00:00" a)
              = retry_count a + max_retries cfg3).
  { apply H.
    - vm_compute. reflexivity.
    - discriminate.
    - repeat constructor; discriminate.
    - vm_compute. discriminate.
    - intros k. eexists. split; reflexivity.
    - vm_compute. reflexivity. }
  vm_compute in E. discriminate E.
Qed.

(** C2, amended: [retry_count] never decreases, through any operation of
    the store and through a whole run; one call of the per-asset loop
    changes the database in one of three ways only (completed, failed once,
    untouched), so it adds at most one to [retry_count] however many
    attempts failed; a call in which all [max_retries] attempts fail adds
    exactly one, after [max_retries - 1] waits. *)
Theorem retry_count_monotone (env : Env) (cfg : Config) :
  (forall S d, retry_le d (exec (add_assets S) d))
  /\ (forall id immich now fs ub ud d,
        retry_le d (exec (mark_completed id immich fs ub ud now) d))
  /\ (forall id msg now d, retry_le d (exec (mark_failed id msg now) d))
  /\ (forall args o, retry_le (db o) (db (exec (run_body env cfg args) o)))
  /\ (forall asset o,
        loop_effect (asset_id asset) (db o)
                    (result (_process_asset_with_retries env cfg asset) o)
                    (db (exec (_process_asset_with_retries env cfg asset) o)))
  /\ (forall asset o,
        find_row (asset_id asset) (assets (db o)) = Some asset ->
        retry_delays cfg <> [] ->
        Forall (fun d => 0 <= d) (retry_delays cfg) ->
        0 < max_retries cfg ->
        (forall k, exists e,
            attempt_result env (asset_id asset) k = Raises e /\ is_Exception e = true) ->
        let o' := exec (_process_asset_with_retries env cfg asset) o in
        result (_process_asset_with_retries env cfg asset) o = Ret false
        /\ (exists r', find_row (asset_id asset) (assets (db o')) = Some r'
                       /\ status r' = "failed"
                       /\ retry_count r' = retry_count asset + 1)
        /\ Z.of_nat (List.length (slept o'))
           = Z.of_nat (List.length (slept o)) + (max_retries cfg - 1)).
Proof.
  split; [apply retry_le_add_assets|].
  split; [intros; apply retry_le_mark_completed|].
  split; [intros; apply retry_le_mark_failed|].
  split; [intros; apply mono_run_body|].
  split; [intros; apply attempts_effect|].
  intros asset o Hrow Hd Hnn Hm Hfail o'. subst o'.
  unfold _process_asset_with_retries, range.
  destruct (attempts_all_fail env cfg (asset_id asset) Hfail Hd Hnn
              (Z.to_nat (max_retries cfg)) 0 o) as (msg & now & Hr & Hdb & Hs);
    [lia|lia|].
  split; [exact Hr|]. split.
  - exists (set_failed msg now asset). rewrite Hdb.
    split; [|split; reflexivity].
    apply (find_row_update _ (set_failed msg now)); [reflexivity|exact Hrow].
  - rewrite Hs. lia.
Qed.

(** C3: the code at the failing input.  Two assets, every upload goes
    through, and the operator interrupts during the first one: the loop
    stops before the second asset, which stays pending, the flag is set, no
    asset is failed, and [run] returns exit code 0, the code of a full
    success.  The clause for [KeyboardInterrupt], which no signal reaches
    once the handlers are installed, is the one that returns 1. *)
Theorem interrupted_run_exits_zero :
  let o := exec (run_body interrupted_env cfg3 Cli.defaults)
                (open_store interrupted_env Cli.defaults no_files) in
  fst (run interrupted_env cfg3 Cli.defaults no_files) = 0
  /\ shutdown_requested o = true
  /\ count_status "completed" (assets (db o)) = 1
  /\ count_status "pending" (assets (db o)) = 1
  /\ count_status "failed" (assets (db o)) = 0
  /\ exit_code_of (Raise KeyboardInterrupt) = 1.
Proof. vm_compute. repeat split. Qed.

(** C7, as stated, fails: with delays 1000, 2000, 5000 and five attempts,
    attempt index 4 is the last one and is followed by no wait. *)
Lemma backoff_last_attempt_no_wait :
  ~ (forall (cfg : Config) (i : Z),
        retry_delays cfg <> [] -> 0 <= i -> i < max_retries cfg ->
        backoff cfg i
        = Ret (RetryAfter (nth (Z.to_nat (Z.min i (Z.of_nat (List.length (retry_delays cfg)) - 1)))
                               (retry_delays cfg) 0))).
Proof.
  intros H.
  assert (E : backoff cfg5 4 = Ret (RetryAfter 5000)).
  { apply (H cfg5 4); [discriminate|lia|reflexivity]. }
  vm_compute in E. discriminate E.
Qed.

(** C7, amended: after a failed attempt [i] that is not the last one
    ([i < max_retries - 1]) the wait is [delays[min(i, len(delays)-1)]];
    after the last attempt there is no wait.  With delays 1000, 2000, 5000
    and five attempts, the attempts 0 to 3 are followed by waits of 1000,
    2000, 5000 and 5000 ms and attempt 4 by none, and an asset that fails
    five times has waited exactly these four delays. *)
Theorem backoff_schedule (cfg : Config) (i : Z) :
  retry_delays cfg <> [] -> 0 <= i ->
  backoff cfg i
  = (if i <? max_retries cfg - 1
     then Ret (RetryAfter (nth (Z.to_nat (Z.min i (Z.of_nat (List.length (retry_delays cfg)) - 1)))
                               (retry_delays cfg) 0))
     else Ret Exhausted)
  /\ map (backoff cfg5) [0; 1; 2; 3; 4]
     = [ Ret (RetryAfter 1000); Ret (RetryAfter 2000); Ret (RetryAfter 5000);
         Ret (RetryAfter 5000); Ret Exhausted ]
  /\ (forall asset,
        slept (exec (_process_asset_with_retries failing_env cfg5 asset)
                    (fresh_orch pending_db))
        = [1000; 2000; 5000; 5000]).
Proof.
  intros Hl Hi. split; [|split; [reflexivity|intros asset; reflexivity]].
  destruct (Z.ltb_spec i (max_retries cfg - 1)).
  - apply backoff_retry; assumption.
  - apply backoff_exhausted. lia.
Qed.

Lemma backoff_schedule_witness :
  backoff cfg5 3 = Ret (RetryAfter 5000)
  /\ map (backoff cfg5) [0; 1; 2; 3; 4]
     = [ Ret (RetryAfter 1000); Ret (RetryAfter 2000); Ret (RetryAfter 5000);
         Ret (RetryAfter 5000); Ret Exhausted ]
  /\ (forall asset,
        slept (exec (_process_asset_with_retries failing_env cfg5 asset)
                    (fresh_orch pending_db))
        = [1000; 2000; 5000; 5000]).
Proof.
  apply (backoff_schedule cfg5 3).
  - discriminate.
  - lia.
Defined.

(** A run in which every upload is rejected: both assets end failed with
    one attempt counted each, after two waits each, and the exit code is 1. *)
Example run_all_fail :
  let o := exec (run_body failing_env cfg3 Cli.defaults)
                (open_store failing_env Cli.defaults no_files) in
  fst (run failing_env cfg3 Cli.defaults no_files) = 1
  /\ map (fun r => (asset_id r, status r, retry_count r)) (assets (db o))
     = [("A", "failed", 1); ("B", "failed", 1)]
  /\ slept o = [1000; 2000; 1000; 2000].
Proof. vm_compute. repeat split. Qed.

End OrchestratorClaims.

(** ** Backups *)

Module BackupFacts.
Import StateDB Samples Vocabulary.

Lemma ascii_compare_refl (c : ascii) : Ascii.compare c c = Eq.
Proof. unfold Ascii.compare. apply N.compare_refl. Qed.


Lemma compare_refl (a : string) : String.compare a a = Eq.
Proof.
  induction a as [|c a IH]; simpl; [reflexivity|].
  rewrite ascii_compare_refl. exact IH.
Qed.








(** *** More on the stable sort *)

Section SortMore.
Context {A : Type} (key : A -> string).






End SortMore.

(** *** Removing the first names of a list without repetition *)








(** *** One backup *)


(** *** Backups one after the other *)





End BackupFacts.

(** ** Claims on the backups *)

Module BackupClaims.
Import StateDB Samples BackupFacts Vocabulary.




End BackupClaims.

(** ** The command line *)

Module CliFacts.
Import Cli Vocabulary.

Lemma parse_loop_turn (s : string) (rest : list string) (ns : Args)
    (extras : list string) (sep : bool) :
  parse_loop (s :: rest) ns extras sep
  = match parse_turn s rest ns extras sep with
    | Done r => r
    | Continue rest' ns' extras' sep' => parse_loop rest' ns' extras' sep'
    end.
Proof.
  unfold parse_turn. cbn [parse_loop].
  destruct sep; [reflexivity|].
  destruct (String.eqb s "--"); [reflexivity|].
  destruct (parse_optional s) as [|a o e| |]; try reflexivity.
  destruct a, e as [v|]; cbn [takes_argument]; try reflexivity;
    try (destruct (_ && _); reflexivity);
    try (destruct (store _ v ns); reflexivity);
    destruct rest as [|v rest1]; try reflexivity;
    destruct (_ && _); try reflexivity;
    destruct (store _ v ns); reflexivity.
Qed.

Lemma keeps_flags_refl (ns : Args) : keeps_flags ns ns.
Proof. split; auto. Qed.

Lemma keeps_flags_trans (a b c : Args) :
  keeps_flags a b -> keeps_flags b c -> keeps_flags a c.
Proof. unfold keeps_flags. intuition. Qed.

Lemma store_keeps (a : action) (v : string) (ns ns' : Args) :
  store a v ns = Some ns' -> keeps_flags ns ns'.
Proof.
  unfold store, keeps_flags. destruct a; try discriminate.
  - destruct (member v _); [|discriminate]. intros [= <-]. auto.
  - destruct (member v _); [|discriminate]. intros [= <-]. auto.
  - destruct (py_int v); [|discriminate]. intros [= <-]. auto.
Qed.

Lemma store_true_keeps (a : action) (ns : Args) : keeps_flags ns (store_true a ns).
Proof. unfold keeps_flags. destruct a; simpl; auto. Qed.

Lemma parse_turn_Done (s : string) (rest : list string) (ns : Args)
    (extras : list string) (sep : bool) (r : parse_result) :
  parse_turn s rest ns extras sep = Done r ->
  exists status message, r = ParserExit status message.
Proof.
  unfold parse_turn.
  destruct sep; [discriminate|].
  destruct (String.eqb s "--"); [discriminate|].
  destruct (parse_optional s) as [|a o e| |]; try discriminate;
    [|intros [= <-]; eauto].
  destruct a, e as [v|]; cbn [takes_argument];
    repeat match goal with
           | |- Done _ = Done _ -> _ => intros [= <-]; eauto
           | |- Continue _ _ _ _ = Done _ -> _ => discriminate
           | |- context [if ?b then _ else _] => destruct b
           | |- context [match store ?a ?v ?n with _ => _ end] => destruct (store a v n)
           | |- context [match ?l with [] => _ | _ :: _ => _ end] => destruct l
           end.
Qed.

(** How a turn that goes on leaves the command line: the string went to
    the extras, or an option took it, alone or with the string behind it,
    and that string was none that reads as an option. *)
Lemma parse_turn_Continue (s : string) (rest : list string) (ns : Args)
    (extras : list string) (sep : bool)
    (rest' : list string) (ns' : Args) (extras' : list string) (sep' : bool) :
  parse_turn s rest ns extras sep = Continue rest' ns' extras' sep' ->
  (List.length rest' <= List.length rest)%nat
  /\ keeps_flags ns ns'
  /\ (extras' = (extras ++ [s])%list
      \/ (extras' = extras /\ sep = false
          /\ (rest' = rest
              \/ exists v, rest = v :: rest' /\ v <> "--screenshots-only"))).
Proof.
  unfold parse_turn.
  destruct sep; [|destruct (String.eqb s "--");
                   [|destruct (parse_optional s) as [|a o e| |];
                     [|destruct a, e as [v|]; cbn [takes_argument]| |]]];
    repeat match goal with
           | |- Done _ = Continue _ _ _ _ -> _ => discriminate
           | |- Continue _ _ _ _ = Continue _ _ _ _ -> _ =>
             let H := fresh "H" in intros H; inversion H; subst; clear H
           | |- context [match store ?a ?v ?n with _ => _ end] =>
             destruct (store a v n) eqn:St
           | |- context [match ?l with [] => _ | _ :: _ => _ end] => destruct l
           | |- context [if ?b then _ else _] => destruct b eqn:Ev
           end.
  all: split; [simpl; lia|].
  all: split;
    [first [apply keeps_flags_refl | eapply store_keeps; exact St
           | split; simpl; auto]|].
  all: first
    [ left; reflexivity
    | right; split; [reflexivity|]; split; [reflexivity|];
      first [ left; reflexivity
            | right; eexists; split; [reflexivity|];
              intros ->; vm_compute in Ev; discriminate Ev ] ].
Qed.

Lemma parse_turn_screenshots_only (rest : list string) (ns : Args) (extras : list string) :
  parse_turn "--screenshots-only" rest ns extras false
  = Continue rest (store_true ScreenshotsOnly ns) extras false.
Proof. reflexivity. Qed.

(** A parse that ends with a namespace left no extras, cleared none of the
    two screenshot flags, and set [screenshots_only] if the option was among
    the strings. *)
Lemma parse_loop_Parsed (n : nat) :
  forall (argv : list string) (ns : Args) (extras : list string) (sep : bool) (a : Args),
    (List.length argv <= n)%nat ->
    parse_loop argv ns extras sep = Parsed a ->
    extras = []
    /\ keeps_flags ns a
    /\ (In "--screenshots-only" argv -> screenshots_only a = true).
Proof.
  induction n as [|n IH]; intros [|s rest] ns extras sep a Hlen H;
    try (simpl in Hlen; lia).
  - cbn [parse_loop] in H. destruct extras; [|discriminate].
    injection H as <-. split; [reflexivity|]. split; [apply keeps_flags_refl|].
    intros [].
  - cbn [parse_loop] in H. destruct extras; [|discriminate].
    injection H as <-. split; [reflexivity|]. split; [apply keeps_flags_refl|].
    intros [].
  - rewrite parse_loop_turn in H.
    destruct (parse_turn s rest ns extras sep) as [r|rest' ns' extras' sep'] eqn:T.
    { destruct (parse_turn_Done _ _ _ _ _ _ T) as (c & m & ->). discriminate. }
    destruct (parse_turn_Continue _ _ _ _ _ _ _ _ _ T) as (Hl & Hk & Hcase).
    simpl in Hlen.
    destruct (IH rest' ns' extras' sep' a ltac:(lia) H) as (He & Hk' & Hin).
    destruct Hcase as [->|(-> & -> & Hrest)].
    { destruct extras; discriminate. }
    split; [exact He|]. split; [eapply keeps_flags_trans; eassumption|].
    intros [->|Hin'].
    + rewrite parse_turn_screenshots_only in T. injection T as <- <-.
      apply Hk'. reflexivity.
    + apply Hin. destruct Hrest as [->|(v & -> & Hv)]; [exact Hin'|].
      destruct Hin' as [->|Hin']; [contradiction|exact Hin'].
Qed.

End CliFacts.

(** ** Claims on the command line *)

Module CliClaims.
Import Cli Orchestrator Vocabulary Samples CliFacts.



Example parse_defaults :
  parse_args [] = Parsed (mkArgs "INFO" "all" false true 1 false false false).
Proof. reflexivity. Qed.

Example parse_resume_video :
  parse_args ["--resume"; "--type=video"; "--workers"; "4"; "--log"; "DEBUG"]
  = Parsed (mkArgs "DEBUG" "video" false true 4 true false false).
Proof. reflexivity. Qed.

Example parse_ambiguous_abbreviation :
  parse_args ["--re"] = ParserExit 2 "ambiguous option".
Proof. reflexivity. Qed.

End CliClaims.

(** * Further properties of the code *)

(** ** The state store *)

Module StoreExtras.
Import StateDB StateDBFacts Vocabulary Samples Invariants.

(** [set_metadata] and [get_metadata]: a value written is the value read,
    the other keys and the assets are left alone, a second write to a key
    replaces the first, and a key never written reads as [None]. *)
Theorem metadata_round_trip (k v : string) (d : DB) :
  result (get_metadata k) (exec (set_metadata k v) d) = Ret (Some v)
  /\ (forall k', k' <> k ->
        result (get_metadata k') (exec (set_metadata k v) d)
        = result (get_metadata k') d)
  /\ (forall v', exec (set_metadata k v') (exec (set_metadata k v) d)
                 = exec (set_metadata k v') d)
  /\ assets (exec (set_metadata k v) d) = assets d
  /\ result (get_metadata k) empty_db = Ret None.
Proof.
  unfold result, exec, get_metadata, set_metadata, modify. simpl.
  split; [rewrite lookup_insert_eq; reflexivity|].
  split; [intros k' H; rewrite lookup_insert_ne by congruence; reflexivity|].
  split; [intros v'; rewrite insert_insert_eq; reflexivity|].
  split; reflexivity.
Qed.

Lemma asset_tuple_Ret_iff (a : asset_dict) :
  (exists r, asset_tuple a = Ret r) <-> has_required_keys a.
Proof.
  unfold asset_tuple, getitem, has_required_keys. split.
  - intros [r H].
    destruct (a !! "id"); [|discriminate].
    destruct (a !! "type"); [|discriminate].
    destruct (a !! "creation_date"); [|discriminate].
    repeat split; eexists; reflexivity.
  - intros ([i Hi] & [t Ht] & [c Hc]). rewrite Hi, Ht, Hc. eauto.
Qed.

Lemma asset_tuple_Raise_inv (a : asset_dict) (e : exn) :
  asset_tuple a = Raise e ->
  exists key, In key ["id"; "type"; "creation_date"] /\ e = KeyError key.
Proof.
  unfold asset_tuple, getitem.
  destruct (a !! "id"); [|intros [= <-]; exists "id"; simpl; auto].
  destruct (a !! "type"); [|intros [= <-]; exists "type"; simpl; auto].
  destruct (a !! "creation_date");
    [discriminate|intros [= <-]; exists "creation_date"; simpl; auto].
Qed.

(** [add_assets] with a descriptor that lacks ['id'], ['type'] or
    ['creation_date'] raises the [KeyError] of such a key and inserts
    nothing, not even the well-formed descriptors in front of the bad
    one. *)
Theorem add_assets_missing_key (S : list asset_dict) (d : DB) :
  Exists (fun a => ~ has_required_keys a) S ->
  exists key,
    In key ["id"; "type"; "creation_date"]
    /\ add_assets S d = (Raise (KeyError key), d).
Proof.
  intros H.
  assert (E : exists key, In key ["id"; "type"; "creation_date"]
                          /\ assets_data S = Raise (KeyError key)).
  { induction H as [a S Ha|a S _ IH]; cbn [assets_data].
    - destruct (asset_tuple a) as [r|e] eqn:E.
      + exfalso. apply Ha, asset_tuple_Ret_iff. eauto.
      + destruct (asset_tuple_Raise_inv a e E) as (k & Hk & ->). eauto.
    - destruct (asset_tuple a) as [r|e] eqn:E.
      + destruct IH as (k & Hk & ->). eauto.
      + destruct (asset_tuple_Raise_inv a e E) as (k & Hk & ->). eauto. }
  destruct E as (k & Hk & E). exists k. split; [exact Hk|].
  unfold add_assets. rewrite E. reflexivity.
Qed.

(** Insert-or-ignore of a batch reads as: append the batch, and let the
    first row of an [asset_id] win. *)
Lemma find_row_executemany (rs tbl : list Row) (id : string) :
  find_row id (executemany_insert rs tbl)
  = match find_row id tbl with
    | Some r => Some r
    | None => find_row id rs
    end.
Proof.
  unfold executemany_insert. revert tbl.
  induction rs as [|r rs IH]; intros tbl; cbn [fold_left find_row].
  - destruct (find_row id tbl); reflexivity.
  - rewrite IH. unfold insert_or_ignore.
    destruct (find_row (asset_id r) tbl) eqn:E.
    + destruct (find_row id tbl) eqn:E'; [reflexivity|].
      destruct (String.eqb_spec (asset_id r) id) as [<-|_]; [congruence|reflexivity].
    + rewrite find_row_app. cbn [find_row].
      destruct (find_row id tbl); [reflexivity|].
      destruct (String.eqb (asset_id r) id); reflexivity.
Qed.

Lemma asset_tuple_fields (a : asset_dict) (r : Row) :
  asset_tuple a = Ret r ->
  exists id ty cd,
    a !! "id" = Some id /\ a !! "type" = Some ty /\ a !! "creation_date" = Some cd
    /\ r = mkRow id (get_default a "original_filename" "") ty cd "pending"
                 None None 0 None None None None None.
Proof.
  unfold asset_tuple, getitem.
  destruct (a !! "id") as [id|]; [|discriminate].
  destruct (a !! "type") as [ty|]; [|discriminate].
  destruct (a !! "creation_date") as [cd|]; [|discriminate].
  intros [= <-]. exists id, ty, cd. auto.
Qed.

Lemma assets_data_Ret (S : list asset_dict) :
  Forall has_required_keys S -> exists rs, assets_data S = Ret rs.
Proof.
  induction 1 as [|a S Ha _ [rs IH]]; cbn [assets_data]; [eauto|].
  apply asset_tuple_Ret_iff in Ha. destruct Ha as [r ->]. rewrite IH. eauto.
Qed.

(** The first descriptor of an [asset_id] is the one whose tuple is found
    in the batch. *)
Lemma assets_data_find (S : list asset_dict) (rs : list Row) (id : string) :
  assets_data S = Ret rs ->
  match find_row id rs with
  | Some r => exists S1 a S2,
      S = (S1 ++ a :: S2)%list /\ asset_tuple a = Ret r /\ a !! "id" = Some id
      /\ Forall (fun b => b !! "id" <> Some id) S1
  | None => Forall (fun b => b !! "id" <> Some id) S
  end.
Proof.
  revert rs. induction S as [|a S IH]; intros rs; cbn [assets_data].
  - intros [= <-]. constructor.
  - destruct (asset_tuple a) as [r|] eqn:Ea; [|discriminate].
    destruct (assets_data S) as [rs'|]; [|discriminate].
    intros [= <-]. cbn [find_row]. specialize (IH rs' eq_refl).
    destruct (asset_tuple_fields a r Ea) as (i & ty & cd & Hi & _ & _ & Hr).
    assert (Hid : asset_id r = i) by (rewrite Hr; reflexivity).
    destruct (String.eqb_spec (asset_id r) id) as [E|E].
    + exists [], a, S. repeat split; [exact Ea|congruence|constructor].
    + assert (Hne : a !! "id" <> Some id) by congruence.
      destruct (find_row id rs') as [r'|].
      * destruct IH as (S1 & b & S2 & -> & Hb & Hbi & H1).
        exists (a :: S1), b, S2. repeat split; [exact Hb|exact Hbi|].
        constructor; assumption.
      * constructor; assumption.
Qed.

(** [add_assets] with well-formed descriptors returns; afterwards the table
    holds the ids it held and the ids of the descriptors, and the row of an
    id that is new is built from the first descriptor that carries it: a
    pending row with no attempt counted, every result column NULL, and the
    empty text for a file name that the descriptor does not give. *)
Theorem add_assets_inserts (S : list asset_dict) (d : DB) :
  Forall has_required_keys S ->
  result (add_assets S) d = Ret tt
  /\ (forall id,
        In id (ids (assets (exec (add_assets S) d)))
        <-> In id (ids (assets d)) \/ exists a, In a S /\ a !! "id" = Some id)
  /\ (forall id r,
        find_row id (assets d) = None ->
        find_row id (assets (exec (add_assets S) d)) = Some r ->
        exists S1 a S2 ty cd,
          S = (S1 ++ a :: S2)%list
          /\ Forall (fun b => b !! "id" <> Some id) S1
          /\ a !! "id" = Some id /\ a !! "type" = Some ty
          /\ a !! "creation_date" = Some cd
          /\ r = mkRow id (get_default a "original_filename" "") ty cd "pending"
                       None None 0 None None None None None).
Proof.
  intros HS. destruct (assets_data_Ret S HS) as [rs Hrs].
  unfold result, exec, add_assets. rewrite Hrs. cbn.
  split; [reflexivity|]. split.
  - intros id.
    assert (Hin : forall t, In id (ids t) <-> find_row id t <> None).
    { intros t. rewrite find_row_none. split; [tauto|].
      intros H. destruct (in_dec string_dec id (ids t)); tauto. }
    rewrite !Hin, find_row_executemany.
    pose proof (assets_data_find S rs id Hrs) as Hf.
    destruct (find_row id (assets d)) as [r0|]; [split; [left|]; congruence|].
    destruct (find_row id rs) as [r|].
    + destruct Hf as (S1 & a & S2 & -> & _ & Ha & _).
      split; [|congruence]. intros _. right. exists a. split; [|exact Ha].
      apply in_or_app. right. left. reflexivity.
    + split; [congruence|]. intros [H|(a & Ha & Hi)]; [congruence|].
      rewrite List.Forall_forall in Hf. exfalso. exact (Hf a Ha Hi).
  - intros id r Hold Hnew. rewrite find_row_executemany, Hold in Hnew.
    pose proof (assets_data_find S rs id Hrs) as Hf. rewrite Hnew in Hf.
    destruct Hf as (S1 & a & S2 & -> & Ha & Hi & H1).
    destruct (asset_tuple_fields a r Ha) as (i & ty & cd & Hi' & Hty & Hcd & ->).
    exists S1, a, S2, ty, cd. rewrite Hi in Hi'. injection Hi' as <-.
    repeat split; assumption.
Qed.

Lemma add_assets_inserts_witness :
  result (add_assets two_assets) completed_db = Ret tt
  /\ (forall id,
        In id (ids (assets (exec (add_assets two_assets) completed_db)))
        <-> In id (ids (assets completed_db))
            \/ exists a, In a two_assets /\ a !! "id" = Some id)
  /\ (forall id r,
        find_row id (assets completed_db) = None ->
        find_row id (assets (exec (add_assets two_assets) completed_db)) = Some r ->
        exists S1 a S2 ty cd,
          two_assets = (S1 ++ a :: S2)%list
          /\ Forall (fun b => b !! "id" <> Some id) S1
          /\ a !! "id" = Some id /\ a !! "type" = Some ty
          /\ a !! "creation_date" = Some cd
          /\ r = mkRow id (get_default a "original_filename" "") ty cd "pending"
                       None None 0 None None None None None).
Proof.
  apply (add_assets_inserts two_assets completed_db).
  repeat constructor; eexists; vm_compute; reflexivity.
Defined.

Lemma add_assets_missing_key_witness :
  exists key,
    In key ["id"; "type"; "creation_date"]
    /\ add_assets [ descriptor "A" "image" "2024-01-01T00:00:00Z" "a.jpg";
                    <["id" := "B"]> ∅ ] empty_db
       = (Raise (KeyError key), empty_db).
Proof.
  apply (add_assets_missing_key _ empty_db).
  right. left. intros (_ & [t Ht] & _). vm_compute in Ht. discriminate Ht.
Defined.

(** *** Well-formed tables *)

Lemma wf_row_fresh (a : asset_dict) (r : Row) : asset_tuple a = Ret r -> wf_row r.
Proof.
  intros H. destruct (asset_tuple_fields a r H) as (i & ty & cd & _ & _ & _ & ->).
  unfold wf_row. simpl. split; [lia|]. split; [reflexivity|]. left.
  repeat split; reflexivity.
Qed.

Lemma wf_row_completed (immich now : string) (fs ub : Z) (ud : real) (r : Row) :
  wf_row r -> wf_row (set_completed immich fs ub ud now r).
Proof.
  intros (H0 & Hd & _). unfold wf_row. simpl.
  split; [exact H0|]. split; [exact Hd|]. right. left.
  repeat split; discriminate.
Qed.

Lemma wf_row_failed (msg now : string) (r : Row) :
  wf_row r -> wf_row (set_failed msg now r).
Proof.
  intros (H0 & Hd & _). unfold wf_row. simpl.
  split; [lia|]. split; [exact Hd|]. right. right.
  repeat split; try discriminate. lia.
Qed.

Lemma ids_update (id : string) (f : Row -> Row) (tbl : list Row) :
  (forall x, asset_id (f x) = asset_id x) ->
  ids (update_where_id id f tbl) = ids tbl.
Proof.
  intros Hf. unfold ids, update_where_id. rewrite map_map.
  apply map_ext. intros r. destruct (String.eqb (asset_id r) id); auto.
Qed.

Lemma wf_update (id : string) (f : Row -> Row) (d : DB) :
  (forall x, asset_id (f x) = asset_id x) ->
  (forall x, wf_row x -> wf_row (f x)) ->
  wf d -> wf (with_assets (update_where_id id f) d).
Proof.
  intros Hid Hf [Hn Hr]. split; simpl.
  - rewrite ids_update by exact Hid. exact Hn.
  - unfold update_where_id. apply List.Forall_map.
    eapply List.Forall_impl; [|exact Hr].
    intros r Hw. destruct (String.eqb (asset_id r) id); auto.
Qed.

Lemma assets_data_wf (S : list asset_dict) (rs : list Row) :
  assets_data S = Ret rs -> Forall wf_row rs.
Proof.
  revert rs. induction S as [|a S IH]; intros rs; cbn [assets_data].
  - intros [= <-]. constructor.
  - destruct (asset_tuple a) as [r|] eqn:Ea; [|discriminate].
    destruct (assets_data S) as [rs'|]; [|discriminate].
    intros [= <-]. constructor; [eapply wf_row_fresh; exact Ea|apply IH; reflexivity].
Qed.

Lemma executemany_insert_Forall (P : Row -> Prop) (rs tbl : list Row) :
  Forall P tbl -> Forall P rs -> Forall P (executemany_insert rs tbl).
Proof.
  unfold executemany_insert. intros Ht Hrs. revert tbl Ht.
  induction Hrs as [|r rs Hr _ IH]; intros tbl Ht; simpl; [exact Ht|].
  apply IH. unfold insert_or_ignore.
  destruct (find_row (asset_id r) tbl); [exact Ht|].
  apply List.Forall_app. split; [exact Ht|]. constructor; [exact Hr|constructor].
Qed.

Lemma wf_add_assets (S : list asset_dict) (d : DB) : wf d -> wf (exec (add_assets S) d).
Proof.
  intros [Hn Hr]. unfold exec, add_assets.
  destruct (assets_data S) as [rs|e] eqn:E; simpl; [|split; assumption].
  split; simpl.
  - apply StateDBClaims.add_assets_keeps_NoDup, Hn.
  - apply executemany_insert_Forall; [exact Hr|]. eapply assets_data_wf, E.
Qed.

Lemma wf_mark_completed (id immich now : string) (fs ub : Z) (ud : real) (d : DB) :
  wf d -> wf (exec (mark_completed id immich fs ub ud now) d).
Proof.
  apply wf_update; [reflexivity|]. intros x. apply wf_row_completed.
Qed.

Lemma wf_mark_failed (id msg now : string) (d : DB) :
  wf d -> wf (exec (mark_failed id msg now) d).
Proof.
  apply wf_update; [reflexivity|]. intros x. apply wf_row_failed.
Qed.

Lemma wf_set_metadata (k v : string) (d : DB) : wf d -> wf (exec (set_metadata k v) d).
Proof. intros H. exact H. Qed.

Lemma wf_empty : wf empty_db.
Proof. split; constructor. Qed.

(** *** The statistics *)

Lemma count_three (tbl : list Row) :
  Forall (fun r => status r = "pending" \/ status r = "completed" \/ status r = "failed") tbl ->
  count_status "pending" tbl + count_status "completed" tbl + count_status "failed" tbl
  = Z.of_nat (List.length tbl).
Proof.
  unfold count_status. induction 1 as [|r tbl Hr _ IH]; [reflexivity|].
  cbn [List.filter List.length].
  destruct Hr as [E|[E|E]]; rewrite E; cbn [String.eqb Ascii.eqb Bool.eqb];
    cbn [List.length]; lia.
Qed.

Lemma count_sum_le (tbl : list Row) :
  0 <= count_status "pending" tbl /\ 0 <= count_status "completed" tbl
  /\ 0 <= count_status "failed" tbl
  /\ count_status "pending" tbl + count_status "completed" tbl
     + count_status "failed" tbl <= Z.of_nat (List.length tbl).
Proof.
  unfold count_status. split; [lia|]. split; [lia|]. split; [lia|].
  induction tbl as [|r tbl IH]; [simpl; lia|].
  cbn [List.filter List.length].
  destruct (String.eqb_spec (status r) "pending") as [E|E1].
  - rewrite E. cbn [String.eqb Ascii.eqb Bool.eqb List.length]. lia.
  - destruct (String.eqb_spec (status r) "completed") as [E|E2].
    + rewrite E. cbn [String.eqb Ascii.eqb Bool.eqb List.length]. lia.
    + destruct (String.eqb (status r) "failed"); cbn [List.length]; lia.
Qed.

(** [get_stats] on any table: the total is the number of rows, no count is
    negative and the three counts do not exceed the total; on a table whose
    rows are as the code writes them the three counts add up to the total. *)
Theorem get_stats_total (d : DB) :
  exists st,
    get_stats d = (Ret st, d)
    /\ st_total st = Z.of_nat (List.length (assets d))
    /\ 0 <= st_pending st /\ 0 <= st_completed st /\ 0 <= st_failed st
    /\ st_pending st + st_completed st + st_failed st <= st_total st
    /\ (wf d -> st_pending st + st_completed st + st_failed st = st_total st).
Proof.
  eexists. split; [reflexivity|]. cbn [st_total st_pending st_completed st_failed].
  destruct (count_sum_le (assets d)) as (H1 & H2 & H3 & H4).
  repeat split; try assumption.
  intros [_ Hr]. apply count_three.
  eapply List.Forall_impl; [|exact Hr].
  intros r (_ & _ & [H|[H|H]]); destruct H as [-> _]; auto.
Qed.

End StoreExtras.

(** ** A run *)

Module RunExtras.
Import StateDB StateDBFacts Orchestrator Vocabulary Samples Invariants MoreSamples.
Import OrchestratorFacts StoreExtras.

(** *** Properties of the database kept through a run *)

Section Keeps.
Variable P : DB -> Prop.

Lemma keeps_ret {A} (a : A) : keeps P (mret a : M Orch A).
Proof. intros o H. exact H. Qed.

Lemma keeps_raise {A} (e : exn) : keeps P (raise e : M Orch A).
Proof. intros o H. exact H. Qed.

Lemma keeps_bind {A B} (m : M Orch A) (k : A -> M Orch B) :
  keeps P m -> (forall a, keeps P (k a)) -> keeps P (m ≫= k).
Proof.
  intros Hm Hk o H. unfold exec. rewrite bind_eq.
  specialize (Hm o H). unfold exec in Hm.
  destruct (m o) as [[a|e] o1]; simpl in *; [|exact Hm].
  apply Hk, Hm.
Qed.

Lemma keeps_lift_db {A} (m : M DB A) :
  (forall d, P d -> P (exec m d)) -> keeps P (lift_db m).
Proof.
  intros H o Ho. specialize (H (db o) Ho). unfold exec, lift_db in *.
  destruct (m (db o)) as [r d]. exact H.
Qed.

Lemma keeps_read {A} (m : M DB A) :
  (forall d, exec m d = d) -> keeps P (lift_db m).
Proof. intros H. apply keeps_lift_db. intros d Hd. rewrite H. exact Hd. Qed.

Lemma keeps_tick : keeps P tick.
Proof. intros o H. exact H. Qed.

Lemma keeps_deliver (b : bool) : keeps P (deliver b).
Proof. intros o H. destruct b; exact H. Qed.

Lemma keeps_attempts (env : Env) (cfg : Config) (id : string) (todo : list nat) :
  marks_keep P id -> keeps P (attempts env cfg id todo).
Proof.
  intros Hm o H.
  destruct (attempts_effect env cfg id todo o); [apply Hm, H|apply Hm, H|exact H].
Qed.

Hypothesis meta : metadata_keeps P.

Lemma keeps_set_metadata (k v : string) : keeps P (lift_db (set_metadata k v)).
Proof. apply keeps_lift_db. intros d. apply meta. Qed.

Lemma keeps_update_progress (env : Env) (cfg : Config) (i : nat) :
  keeps P (update_progress env cfg i).
Proof.
  unfold update_progress.
  destruct (progress_update_interval cfg =? 0); [apply keeps_raise|].
  destruct (_ =? 0); [|apply keeps_ret].
  apply keeps_bind; [apply keeps_read; reflexivity|]. intros st.
  apply keeps_bind; [apply keeps_set_metadata|]. intros _.
  apply keeps_bind; [apply keeps_tick|]. intros n. apply keeps_set_metadata.
Qed.

Lemma keeps_process_loop (env : Env) (cfg : Config) (pending : list Row) (i : nat) :
  Forall (fun a => marks_keep P (asset_id a)) pending ->
  keeps P (process_loop env cfg i pending).
Proof.
  intros H. revert i. induction H as [|a rest Ha _ IH]; intros i o Ho;
    cbn [process_loop].
  - exact Ho.
  - unfold exec. destruct (shutdown_requested o); [exact Ho|].
    apply (keeps_bind (_process_asset_with_retries env cfg a)); [| |exact Ho].
    + apply keeps_attempts, Ha.
    + intros _. apply keeps_bind; [apply keeps_update_progress|].
      intros _. apply IH.
Qed.

Lemma keeps_print_summary (env : Env) : keeps P (_print_summary env).
Proof.
  unfold _print_summary.
  apply keeps_bind; [apply keeps_read; reflexivity|]. intros st.
  apply keeps_bind; [apply keeps_tick|]. intros n.
  apply keeps_bind; [apply keeps_set_metadata|]. intros _. apply keeps_ret.
Qed.

Hypothesis marks : forall id, marks_keep P id.
Hypothesis inserts : forall S d, P d -> P (exec (add_assets S) d).

Lemma keeps_process_assets (env : Env) (cfg : Config) : keeps P (_process_assets env cfg).
Proof.
  unfold _process_assets.
  apply keeps_bind; [apply keeps_read; reflexivity|].
  intros [|a rest]; [apply keeps_ret|].
  apply keeps_process_loop. apply List.Forall_forall. intros x _. apply marks.
Qed.

Lemma keeps_discover_assets (env : Env) (args : Cli.Args) :
  keeps P (_discover_assets env args).
Proof.
  unfold _discover_assets. destruct (discover env _); try apply keeps_raise.
  apply keeps_bind; [apply keeps_lift_db, inserts|]. intros _.
  apply keeps_bind; [apply keeps_tick|]. intros n.
  repeat (apply keeps_bind; [apply keeps_set_metadata|]; intros _).
  apply keeps_ret.
Qed.

Lemma keeps_discovery_phase (env : Env) (args : Cli.Args) :
  keeps P (discovery_phase env args).
Proof.
  unfold discovery_phase.
  apply keeps_bind; [apply keeps_read; reflexivity|].
  intros total. destruct (Cli.resume args), total as [t|];
    try apply keeps_discover_assets.
  destruct (Cli.py_int t); [|apply keeps_raise].
  apply keeps_bind; [apply keeps_read; reflexivity|]. intros _. apply keeps_ret.
Qed.

Lemma keeps_run_body (env : Env) (cfg : Config) (args : Cli.Args) :
  keeps P (run_body env cfg args).
Proof.
  unfold run_body. apply keeps_bind; [apply keeps_discovery_phase|].
  intros _. destruct (Cli.dry_run args); [apply keeps_ret|].
  apply keeps_bind; [apply keeps_deliver|]. intros _.
  apply keeps_bind; [apply keeps_process_assets|]. intros _.
  apply keeps_print_summary.
Qed.
End Keeps.

(** Whatever the export tool, the upload target and the operator do, a
    run leaves a well-formed table well-formed: no [asset_id] twice, pending
    rows untouched by any result, completed rows with id, sizes and time,
    failed rows with a count of at least one, a message and a time; so the
    state file a run leaves behind is well-formed when the one it found was
    (or when it found none, or reset it). *)
Theorem run_keeps_wf (env : Env) (cfg : Config) (args : Cli.Args) (w : World) :
  (forall d, state_file w = Some d -> wf d) ->
  (forall o, wf (db o) -> wf (db (exec (run_body env cfg args) o)))
  /\ (forall d', state_file (snd (run env cfg args w)) = Some d' -> wf d').
Proof.
  intros Hw.
  assert (Hk : keeps wf (run_body env cfg args)).
  { apply keeps_run_body.
    - intros k v d. apply wf_set_metadata.
    - intros id d Hd. split; intros; [apply wf_mark_completed|apply wf_mark_failed];
        exact Hd.
    - intros S d. apply wf_add_assets. }
  split; [exact Hk|].
  intros d'. unfold run.
  destruct (validate_environment env) as [[]|e]; [|apply Hw].
  specialize (Hk (open_store env args w)). unfold exec in Hk.
  destruct (run_body env cfg args (open_store env args w)) as [r o].
  cbn. intros [= <-]. apply Hk. unfold open_store.
  destruct (Cli.resume args), (state_file w) as [d|] eqn:E; cbn;
    try apply wf_empty; try (apply Hw; reflexivity).
  destruct (Cli.reset args); [apply wf_empty|apply Hw; reflexivity].
Qed.

Lemma run_keeps_wf_witness :
  (forall o, wf (db o) -> wf (db (exec (run_body failing_env cfg3 Cli.defaults) o)))
  /\ (forall d', state_file (snd (run failing_env cfg3 Cli.defaults no_files)) = Some d'
                 -> wf d').
Proof.
  apply (run_keeps_wf failing_env cfg3 Cli.defaults no_files).
  simpl. intros d H. discriminate H.
Defined.

(** *** Rows the processing phase does not touch *)

Lemma NoDup_ids_inj (tbl : list Row) (a b : Row) :
  List.NoDup (ids tbl) -> In a tbl -> In b tbl -> asset_id a = asset_id b -> a = b.
Proof.
  induction tbl as [|x tbl IH]; intros Hn Ha Hb E; [destruct Ha|].
  inversion Hn as [|? ? Hx Hn']; subst.
  destruct Ha as [->|Ha], Hb as [->|Hb]; auto.
  - exfalso. apply Hx. rewrite E. apply in_map, Hb.
  - exfalso. apply Hx. rewrite <- E. apply in_map, Ha.
Qed.

Lemma find_row_In (tbl : list Row) (r : Row) :
  List.NoDup (ids tbl) -> In r tbl -> find_row (asset_id r) tbl = Some r.
Proof.
  intros Hn Hr.
  destruct (find_row (asset_id r) tbl) as [x|] eqn:E.
  - apply find_row_some in E. destruct E as [Hx E].
    f_equal. apply (NoDup_ids_inj tbl); assumption.
  - apply find_row_none in E. exfalso. apply E, in_map, Hr.
Qed.

Lemma marks_keep_other (id id' : string) (v : option Row) :
  id' <> id -> marks_keep (fun d => find_row id (assets d) = v) id'.
Proof.
  intros Hne d Hd.
  assert (H : forall f, (forall x, asset_id (f x) = asset_id x) ->
            find_row id (update_where_id id' f (assets d)) = v).
  { intros f Hf. rewrite find_row_update_any by exact Hf. rewrite Hd.
    destruct v as [r|]; [|reflexivity]. simpl.
    apply find_row_some in Hd. destruct Hd as [_ Hid].
    destruct (String.eqb_spec (asset_id r) id'); [congruence|reflexivity]. }
  split; intros; apply H; reflexivity.
Qed.

Lemma metadata_keeps_assets (Q : list Row -> Prop) :
  metadata_keeps (fun d => Q (assets d)).
Proof. intros k v d H. exact H. Qed.

Lemma process_assets_unfold (env : Env) (cfg : Config) (o : Orch) :
  _process_assets env cfg o
  = match select_pending (max_retries cfg) (assets (db o)) with
    | [] => (Ret tt, o)
    | a :: rest =>
      process_loop env cfg 0 (select_pending (max_retries cfg) (assets (db o))) o
    end.
Proof.
  destruct o as [d dir fl sl tk]. unfold _process_assets. rewrite bind_eq.
  cbn. destruct (select_pending (max_retries cfg) (assets d)); reflexivity.
Qed.



(** *** The shutdown flag *)

Lemma flag_stays_bind {A B} (m : M Orch A) (k : A -> M Orch B) :
  flag_stays m -> (forall a, flag_stays (k a)) -> flag_stays (m ≫= k).
Proof.
  intros Hm Hk o H. unfold exec. rewrite bind_eq.
  specialize (Hm o H). unfold exec in Hm.
  destruct (m o) as [[a|e] o1]; simpl in *; [|exact Hm].
  apply Hk, Hm.
Qed.

Lemma flag_stays_ret {A} (a : A) : flag_stays (mret a : M Orch A).
Proof. intros o H. exact H. Qed.

Lemma flag_stays_raise {A} (e : exn) : flag_stays (raise e : M Orch A).
Proof. intros o H. exact H. Qed.

Lemma flag_stays_lift_db {A} (m : M DB A) : flag_stays (lift_db m).
Proof. intros o H. unfold exec, lift_db. destruct (m (db o)). exact H. Qed.

Lemma flag_stays_tick : flag_stays tick.
Proof. intros o H. exact H. Qed.

Lemma flag_stays_deliver (b : bool) : flag_stays (deliver b).
Proof. intros o H. destruct b; [reflexivity|exact H]. Qed.

Lemma flag_stays_sleep (d : Z) : flag_stays (sleep_ms d).
Proof. intros o H. unfold exec, sleep_ms. destruct (d <? 0); exact H. Qed.

Lemma flag_stays_attempts (env : Env) (cfg : Config) (id : string) (todo : list nat) :
  flag_stays (attempts env cfg id todo).
Proof.
  induction todo as [|k todo IH]; cbn [attempts]; [apply flag_stays_ret|].
  apply flag_stays_bind; [apply flag_stays_deliver|]. intros _.
  destruct (attempt_result env id k) as [immich size dur|e].
  - apply flag_stays_bind; [apply flag_stays_tick|]. intros n.
    apply flag_stays_bind; [apply flag_stays_lift_db|]. intros _.
    apply flag_stays_ret.
  - destruct (is_Exception e); [|apply flag_stays_raise].
    destruct (backoff cfg (Z.of_nat k)) as [[d|]|e']; [| |apply flag_stays_raise].
    + apply flag_stays_bind; [apply flag_stays_sleep|]. intros _. exact IH.
    + apply flag_stays_bind; [apply flag_stays_tick|]. intros n.
      apply flag_stays_bind; [apply flag_stays_lift_db|]. intros _.
      apply flag_stays_ret.
Qed.

Lemma flag_stays_update_progress (env : Env) (cfg : Config) (i : nat) :
  flag_stays (update_progress env cfg i).
Proof.
  unfold update_progress.
  destruct (progress_update_interval cfg =? 0); [apply flag_stays_raise|].
  destruct (_ =? 0); [|apply flag_stays_ret].
  apply flag_stays_bind; [apply flag_stays_lift_db|]. intros st.
  apply flag_stays_bind; [apply flag_stays_lift_db|]. intros _.
  apply flag_stays_bind; [apply flag_stays_tick|]. intros n.
  apply flag_stays_lift_db.
Qed.

Lemma process_loop_stopped (env : Env) (cfg : Config) (i : nat) (pending : list Row)
    (o : Orch) :
  shutdown_requested o = true -> process_loop env cfg i pending o = (Ret tt, o).
Proof. intros H. destruct pending; cbn [process_loop]; [reflexivity|]. rewrite H. reflexivity. Qed.

(** An interrupt that arrives while the first attempt on an asset runs lets
    the retry loop of that asset run to its end, with every retry it still
    has, and the progress be written; then the loop stops: the assets behind
    it in the list are not looked at, whatever they are. *)
Theorem interrupt_finishes_current_asset (env : Env) (cfg : Config) (i : nat)
    (a : Row) (rest : list Row) (o : Orch) :
  shutdown_requested o = false ->
  0 < max_retries cfg ->
  signal_during env (asset_id a) 0 = true ->
  process_loop env cfg i (a :: rest) o
  = (_process_asset_with_retries env cfg a ≫= λ _, update_progress env cfg i) o
  /\ shutdown_requested (exec (process_loop env cfg i (a :: rest)) o) = true.
Proof.
  intros Hf Hm Hs.
  assert (F1 : shutdown_requested (exec (_process_asset_with_retries env cfg a) o) = true).
  { unfold exec, _process_asset_with_retries, range.
    destruct (Z.to_nat (max_retries cfg)) as [|n] eqn:En; [lia|].
    cbn [seq attempts]. rewrite bind_eq, Hs. cbn [deliver signal_handler modify].
    match goal with
    | |- shutdown_requested (snd (?m ?o1)) = true =>
      assert (G : forall A (m' : M Orch A), flag_stays m' ->
                    shutdown_requested (snd (m' o1)) = true)
        by (intros A m' Hm'; apply Hm'; reflexivity)
    end.
    apply G.
    destruct (attempt_result env (asset_id a) 0) as [immich size dur|e].
    - apply flag_stays_bind; [apply flag_stays_tick|]. intros k.
      apply flag_stays_bind; [apply flag_stays_lift_db|]. intros _.
      apply flag_stays_ret.
    - destruct (is_Exception e); [|apply flag_stays_raise].
      destruct (backoff cfg (Z.of_nat 0)) as [[d|]|e']; [| |apply flag_stays_raise].
      + apply flag_stays_bind; [apply flag_stays_sleep|]. intros _.
        apply flag_stays_attempts.
      + apply flag_stays_bind; [apply flag_stays_tick|]. intros k.
        apply flag_stays_bind; [apply flag_stays_lift_db|]. intros _.
        apply flag_stays_ret. }
  assert (E : process_loop env cfg i (a :: rest) o
              = (_process_asset_with_retries env cfg a
                   ≫= λ _, update_progress env cfg i) o).
  { cbn [process_loop]. rewrite Hf. rewrite !bind_eq.
    unfold exec in F1.
    destruct (_process_asset_with_retries env cfg a o) as [[b|e] o1]; [|reflexivity].
    rewrite bind_eq. cbn [snd] in F1.
    pose proof (flag_stays_update_progress env cfg i o1 F1) as F2. unfold exec in F2.
    destruct (update_progress env cfg i o1) as [[[]|e] o2]; [|reflexivity].
    apply process_loop_stopped. exact F2. }
  split; [exact E|].
  unfold exec in *. rewrite E, bind_eq.
  destruct (_process_asset_with_retries env cfg a o) as [[b|e] o1]; [|exact F1].
  apply (flag_stays_update_progress env cfg i o1 F1).
Qed.

Lemma interrupt_finishes_current_asset_witness :
  process_loop interrupted_env cfg3 0
    (select_pending 3 (assets pending_db)) (fresh_orch pending_db)
  = (_process_asset_with_retries interrupted_env cfg3
       (mkRow "A" "a.jpg" "image" "2024-01-01T00:00:00Z" "pending"
              None None 0 None None None None None)
       ≫= λ _, update_progress interrupted_env cfg3 0) (fresh_orch pending_db)
  /\ shutdown_requested
       (exec (process_loop interrupted_env cfg3 0
                (select_pending 3 (assets pending_db))) (fresh_orch pending_db))
     = true.
Proof.
  apply (interrupt_finishes_current_asset interrupted_env cfg3 0
           (mkRow "A" "a.jpg" "image" "2024-01-01T00:00:00Z" "pending"
                  None None 0 None None None None None)
           [mkRow "B" "b.mov" "video" "2024-01-02T00:00:00Z" "pending"
                  None None 0 None None None None None]
           (fresh_orch pending_db)).
  - reflexivity.
  - reflexivity.
  - reflexivity.
Defined.

(** *** The retry loop: success after failures, no retries, many runs *)

Section RetryLoop.
Variables (env : Env) (cfg : Config) (id : string).
Hypothesis delays : retry_delays cfg <> [].
Hypothesis nonneg : Forall (fun d => 0 <= d) (retry_delays cfg).

Lemma delay_at_nonneg (i : nat) : 0 <= delay_at cfg i.
Proof.
  rewrite List.Forall_forall in nonneg. apply nonneg. unfold delay_at.
  apply nth_In. destruct (retry_delays cfg); [contradiction|].
  simpl List.length. lia.
Qed.

Lemma attempts_success_after (k n j : nat) (o : Orch)
    (immich : string) (size : Z) (dur : real) :
  (forall i, (j <= i < j + k)%nat -> exists e,
      attempt_result env id i = Raises e /\ is_Exception e = true) ->
  attempt_result env id (j + k) = Uploaded immich size dur ->
  (k < n)%nat ->
  Z.of_nat (j + n) = max_retries cfg ->
  result (attempts env cfg id (seq j n)) o = Ret true
  /\ db (exec (attempts env cfg id (seq j n)) o)
     = exec (mark_completed id immich size size dur (isoformat env (ticks o))) (db o)
  /\ slept (exec (attempts env cfg id (seq j n)) o)
     = (slept o ++ map (delay_at cfg) (seq j k))%list.
Proof.
  unfold result, exec. revert n j o.
  induction k as [|k IH]; intros n j o Hfail Hok Hk Hmax;
    (destruct n as [|n]; [lia|]); cbn [seq attempts]; rewrite bind_eq;
    destruct (deliver_db (signal_during env id j) o) as (o1 & E1 & Hdb);
    assert (Hsl : slept o1 = slept o /\ ticks o1 = ticks o)
      by (destruct (signal_during env id j); cbn in E1; injection E1 as <-;
          split; reflexivity);
    destruct Hsl as [Hsl Htk]; rewrite E1.
  - rewrite Nat.add_0_r in Hok. rewrite Hok. cbn [seq map].
    rewrite app_nil_r, <- Hdb, <- Hsl, <- Htk.
    split; [reflexivity|split; reflexivity].
  - destruct (Hfail j ltac:(lia)) as (e & -> & ->).
    rewrite backoff_retry by (try assumption; lia).
    fold (delay_at cfg j).
    set (o2 := mkOrch (db o1) (directory o1) (shutdown_requested o1)
                      (slept o1 ++ [delay_at cfg j]) (ticks o1)).
    assert (Esl : sleep_ms (delay_at cfg j) o1 = (Ret (), o2)).
    { unfold sleep_ms. pose proof (delay_at_nonneg j).
      destruct (Z.ltb_spec (delay_at cfg j) 0); [lia|reflexivity]. }
    rewrite bind_eq, Esl.
    destruct (IH n (S j) o2) as (Hr & Hd & Hs).
    + intros i Hi. apply Hfail. lia.
    + rewrite <- Hok. f_equal. lia.
    + lia.
    + rewrite <- Hmax. f_equal. lia.
    + split; [exact Hr|]. split.
      * rewrite Hd. cbn [o2 db ticks]. rewrite Hdb, Htk. reflexivity.
      * rewrite Hs. cbn [o2 slept seq map]. rewrite Hsl, <- app_assoc. reflexivity.
Qed.
End RetryLoop.

(** An asset whose first [k] attempts fail and whose next attempt, still
    within [max_retries], goes through is marked completed with the id and
    the size of that upload; the loop has waited exactly the [k] delays of
    the schedule before, and [retry_count] is what it was: failed attempts
    that a success follows are counted nowhere. *)
Theorem success_after_failures (env : Env) (cfg : Config) (asset : Row) (k : nat)
    (o : Orch) (immich : string) (size : Z) (dur : real) :
  retry_delays cfg <> [] ->
  Forall (fun d => 0 <= d) (retry_delays cfg) ->
  Z.of_nat k < max_retries cfg ->
  (forall i, (i < k)%nat -> exists e,
      attempt_result env (asset_id asset) i = Raises e /\ is_Exception e = true) ->
  attempt_result env (asset_id asset) k = Uploaded immich size dur ->
  find_row (asset_id asset) (assets (db o)) = Some asset ->
  let o' := exec (_process_asset_with_retries env cfg asset) o in
  result (_process_asset_with_retries env cfg asset) o = Ret true
  /\ find_row (asset_id asset) (assets (db o'))
     = Some (set_completed immich size size dur (isoformat env (ticks o)) asset)
  /\ retry_count (set_completed immich size size dur (isoformat env (ticks o)) asset)
     = retry_count asset
  /\ slept o' = (slept o ++ map (delay_at cfg) (seq 0 k))%list.
Proof.
  intros Hd Hnn Hk Hfail Hok Hrow o'. subst o'.
  unfold _process_asset_with_retries, range.
  destruct (attempts_success_after env cfg (asset_id asset) Hd Hnn k
              (Z.to_nat (max_retries cfg)) 0 o immich size dur)
    as (Hr & Hdb & Hs); try assumption; try lia.
  { intros i Hi. apply Hfail. lia. }
  split; [exact Hr|]. split; [|split; [reflexivity|exact Hs]].
  rewrite Hdb. apply (find_row_update _ (set_completed _ _ _ _ _)); [reflexivity|exact Hrow].
Qed.

Lemma success_after_failures_witness :
  let o' := exec (_process_asset_with_retries flaky_env cfg3 row_A)
                 (fresh_orch pending_db) in
  result (_process_asset_with_retries flaky_env cfg3 row_A) (fresh_orch pending_db)
  = Ret true
  /\ find_row "A" (assets (db o'))
     = Some (set_completed "immich-A" 2048 2048 (S754_zero false)
                           "2024-01-03T09:00:00" row_A)
  /\ retry_count (set_completed "immich-A" 2048 2048 (S754_zero false)
                                "2024-01-03T09:00:00" row_A) = 0
  /\ slept o' = [1000].
Proof.
  apply (success_after_failures flaky_env cfg3 row_A 1 (fresh_orch pending_db)
           "immich-A" 2048 (S754_zero false)).
  - discriminate.
  - repeat constructor; discriminate.
  - reflexivity.
  - intros i Hi. destruct i; [|lia]. eexists. split; reflexivity.
  - reflexivity.
  - vm_compute. reflexivity.
Defined.

(** With [max_retries] at zero or below the retry loop makes no attempt:
    the processing phase changes no row and waits for nothing, so a pending
    asset stays pending through every such run. *)
Theorem no_retries_no_work (env : Env) (cfg : Config) (o : Orch) :
  max_retries cfg <= 0 ->
  assets (db (exec (_process_assets env cfg) o)) = assets (db o)
  /\ slept (exec (_process_assets env cfg) o) = slept o.
Proof.
  intros Hm. unfold exec. rewrite process_assets_unfold.
  destruct (select_pending (max_retries cfg) (assets (db o))) as [|a rest] eqn:E;
    [split; reflexivity|].
  rewrite <- E. generalize (select_pending (max_retries cfg) (assets (db o))).
  clear E a rest. generalize 0%nat. intros i l. revert i o.
  assert (Hp : forall a o, _process_asset_with_retries env cfg a o = (Ret false, o)).
  { intros a o. unfold _process_asset_with_retries, range.
    replace (Z.to_nat (max_retries cfg)) with 0%nat by lia. reflexivity. }
  assert (Hu : forall i o, assets (db (snd (update_progress env cfg i o))) = assets (db o)
                           /\ slept (snd (update_progress env cfg i o)) = slept o).
  { intros i o. unfold update_progress.
    destruct (progress_update_interval cfg =? 0); [split; reflexivity|].
    destruct (_ =? 0); split; reflexivity. }
  induction l as [|a l IH]; intros i o; cbn [process_loop]; [split; reflexivity|].
  destruct (shutdown_requested o); [split; reflexivity|].
  rewrite bind_eq, Hp, bind_eq.
  destruct (Hu i o) as [Ha Hs].
  destruct (update_progress env cfg i o) as [[[]|e] o1]; cbn [snd] in *.
  - destruct (IH (S i) o1) as [Ha' Hs']. split; congruence.
  - split; assumption.
Qed.

Lemma no_retries_no_work_witness :
  assets (db (exec (_process_assets failing_env cfg0) (fresh_orch pending_db)))
  = assets pending_db
  /\ slept (exec (_process_assets failing_env cfg0) (fresh_orch pending_db)) = [].
Proof.
  apply (no_retries_no_work failing_env cfg0 (fresh_orch pending_db)).
  vm_compute. discriminate.
Defined.

(** A progress interval of zero makes the loop raise [ZeroDivisionError]
    right behind the first asset, which [run] turns into exit code 2; what
    the retry loop did to that asset stays in the store. *)
Theorem zero_interval_aborts (env : Env) (cfg : Config) (i : nat)
    (a : Row) (rest : list Row) (o : Orch) (b : bool) :
  progress_update_interval cfg = 0 ->
  shutdown_requested o = false ->
  result (_process_asset_with_retries env cfg a) o = Ret b ->
  process_loop env cfg i (a :: rest) o
  = (Raise ZeroDivisionError, exec (_process_asset_with_retries env cfg a) o)
  /\ exit_code_of (result (process_loop env cfg i (a :: rest) ≫= λ _, mret 0) o) = 2.
Proof.
  intros Hi Hf Hr.
  assert (E : process_loop env cfg i (a :: rest) o
              = (Raise ZeroDivisionError, exec (_process_asset_with_retries env cfg a) o)).
  { cbn [process_loop]. rewrite Hf, bind_eq. unfold result, exec in *.
    destruct (_process_asset_with_retries env cfg a o) as [r o1]. cbn in Hr. subst r.
    rewrite bind_eq. unfold update_progress. rewrite Hi. reflexivity. }
  split; [exact E|]. unfold result. rewrite bind_eq, E. reflexivity.
Qed.

Lemma zero_interval_aborts_witness :
  process_loop failing_env cfg_interval0 0 [row_A] (fresh_orch pending_db)
  = (Raise ZeroDivisionError,
     exec (_process_asset_with_retries failing_env cfg_interval0 row_A)
          (fresh_orch pending_db))
  /\ exit_code_of (result (process_loop failing_env cfg_interval0 0 [row_A]
                             ≫= λ _, mret 0) (fresh_orch pending_db)) = 2.
Proof.
  apply (zero_interval_aborts failing_env cfg_interval0 0 row_A []
           (fresh_orch pending_db) false).
  - reflexivity.
  - reflexivity.
  - vm_compute. reflexivity.
Defined.

(** [k] runs in a row in which every attempt on an asset fails: each run
    adds one to [retry_count], so after [k] of them the count is up by [k];
    the eligibility query still returns the asset as long as the count is
    below [max_retries] and no longer from then on.  An asset that always
    fails is thus taken up by [max_retries] runs, each with [max_retries]
    attempts. *)
Theorem retry_budget_across_runs (env : Env) (cfg : Config) (asset : Row) (k : nat)
    (o : Orch) :
  retry_delays cfg <> [] ->
  Forall (fun d => 0 <= d) (retry_delays cfg) ->
  0 < max_retries cfg ->
  (forall i, exists e,
      attempt_result env (asset_id asset) i = Raises e /\ is_Exception e = true) ->
  find_row (asset_id asset) (assets (db o)) = Some asset ->
  (0 < k)%nat ->
  exists r',
    find_row (asset_id asset) (assets (db (exec (calls env cfg asset k) o))) = Some r'
    /\ status r' = "failed"
    /\ retry_count r' = retry_count asset + Z.of_nat k
    /\ (In r' (select_pending (max_retries cfg)
                 (assets (db (exec (calls env cfg asset k) o))))
        <-> retry_count asset + Z.of_nat k < max_retries cfg).
Proof.
  intros Hd Hnn Hm Hfail Hrow Hk.
  assert (G : forall k o r,
             find_row (asset_id asset) (assets (db o)) = Some r ->
             exists r',
               find_row (asset_id asset) (assets (db (exec (calls env cfg asset k) o)))
               = Some r'
               /\ retry_count r' = retry_count r + Z.of_nat k
               /\ ((0 < k)%nat -> status r' = "failed")).
  { clear k o Hrow Hk. induction k as [|k IH]; intros o r Hr.
    - exists r. split; [exact Hr|]. split; [lia|lia].
    - cbn [calls]. unfold exec. rewrite bind_eq.
      destruct (attempts_all_fail env cfg (asset_id asset) Hfail Hd Hnn
                  (Z.to_nat (max_retries cfg)) 0 o) as (msg & now & Hres & Hdb & _);
        [lia|lia|].
      unfold result, exec, _process_asset_with_retries, range in *.
      destruct (attempts env cfg (asset_id asset) (seq 0 (Z.to_nat (max_retries cfg))) o)
        as [res o1]. cbn in Hres, Hdb. subst res.
      assert (Hr1 : find_row (asset_id asset) (assets (db o1))
                    = Some (set_failed msg now r)).
      { rewrite Hdb. apply (find_row_update _ (set_failed msg now)); [reflexivity|exact Hr]. }
      destruct (IH o1 _ Hr1) as (r' & Hr' & Hc & Hs).
      exists r'. split; [exact Hr'|]. split; [rewrite Hc; simpl; lia|].
      intros _. destruct k as [|k]; [|apply Hs; lia].
      cbn in Hr'. rewrite Hr1 in Hr'. injection Hr' as <-. reflexivity. }
  destruct (G k o asset Hrow) as (r' & Hr' & Hc & Hs).
  exists r'. split; [exact Hr'|]. split; [apply Hs, Hk|]. split; [exact Hc|].
  rewrite select_pending_In, eligible_spec, Hs, Hc by exact Hk.
  apply find_row_some in Hr'. destruct Hr' as [Hin _].
  split; [intros [_ [H|[_ H]]]; [discriminate|exact H]|auto].
Qed.

Lemma retry_budget_across_runs_witness :
  exists r',
    find_row "A" (assets (db (exec (calls failing_env cfg3 row_A 3)
                                   (fresh_orch pending_db)))) = Some r'
    /\ status r' = "failed"
    /\ retry_count r' = 0 + 3
    /\ (In r' (select_pending 3
                 (assets (db (exec (calls failing_env cfg3 row_A 3)
                                   (fresh_orch pending_db)))))
        <-> 0 + 3 < 3).
Proof.
  apply (retry_budget_across_runs failing_env cfg3 row_A 3 (fresh_orch pending_db)).
  - discriminate.
  - repeat constructor; discriminate.
  - reflexivity.
  - intros i. eexists. split; reflexivity.
  - vm_compute. reflexivity.
  - lia.
Defined.

(** *** A run that nothing disturbs *)

Section Undisturbed.
Variables (env : Env) (cfg : Config).
Hypothesis quiet : undisturbed env.
Hypothesis good : usable cfg.

Lemma attempts_terminal (id : string) (n j : nat) (o : Orch) :
  Z.of_nat (j + n) = max_retries cfg -> (0 < n)%nat ->
  exists b o',
    attempts env cfg id (seq j n) o = (Ret b, o')
    /\ shutdown_requested o' = shutdown_requested o
    /\ ((exists immich fs ud now,
           db o' = exec (mark_completed id immich fs fs ud now) (db o))
        \/ (exists msg now, db o' = exec (mark_failed id msg now) (db o))).
Proof.
  destruct quiet as [Hsig Hatt]. destruct good as (Hm & Hd & Hnn & _).
  revert j o. induction n as [|n IH]; intros j o Hj Hn; [lia|].
  cbn [seq attempts]. rewrite bind_eq, Hsig.
  change (deliver false o) with (Ret tt, o). cbv beta iota.
  specialize (Hatt id j).
  destruct (attempt_result env id j) as [immich size dur|e].
  - eexists _, _. split; [reflexivity|]. split; [reflexivity|].
    left. eexists _, _, _, _. reflexivity.
  - rewrite Hatt. destruct n as [|n].
    + rewrite backoff_exhausted by lia.
      eexists _, _. split; [reflexivity|]. split; [reflexivity|].
      right. eexists _, _. reflexivity.
    + rewrite backoff_retry by (try assumption; lia).
      fold (delay_at cfg j).
      set (o2 := mkOrch (db o) (directory o) (shutdown_requested o)
                        (slept o ++ [delay_at cfg j]) (ticks o)).
      assert (Esl : sleep_ms (delay_at cfg j) o = (Ret (), o2)).
      { unfold sleep_ms. pose proof (delay_at_nonneg cfg Hd Hnn j).
        destruct (Z.ltb_spec (delay_at cfg j) 0); [lia|reflexivity]. }
      rewrite bind_eq, Esl.
      destruct (IH (S j) o2) as (b & o' & E & Hf & Hdb); [lia|lia|].
      exists b, o'. split; [exact E|]. split; [exact Hf|exact Hdb].
Qed.

Lemma update_progress_ok (i : nat) (o : Orch) :
  exists o',
    update_progress env cfg i o = (Ret tt, o')
    /\ assets (db o') = assets (db o)
    /\ shutdown_requested o' = shutdown_requested o.
Proof.
  destruct good as (_ & _ & _ & Hi). unfold update_progress.
  destruct (Z.eqb_spec (progress_update_interval cfg) 0) as [?|_]; [contradiction|].
  destruct (_ =? 0); eexists; (split; [reflexivity|]); split; reflexivity.
Qed.

Lemma find_row_mark_other (id id' : string) (d d' : DB) :
  id' <> id ->
  ((exists immich fs ud now, d' = exec (mark_completed id' immich fs fs ud now) d)
   \/ (exists msg now, d' = exec (mark_failed id' msg now) d)) ->
  find_row id (assets d') = find_row id (assets d).
Proof.
  intros Hne H.
  destruct (marks_keep_other id id' (find_row id (assets d)) Hne d eq_refl) as [Hc Hf].
  destruct H as [(immich & fs & ud & now & ->)|(msg & now & ->)];
    [apply Hc|apply Hf].
Qed.

Lemma find_row_mark_same (id : string) (d d' : DB) (r : Row) :
  find_row id (assets d) = Some r ->
  ((exists immich fs ud now, d' = exec (mark_completed id immich fs fs ud now) d)
   \/ (exists msg now, d' = exec (mark_failed id msg now) d)) ->
  exists r', find_row id (assets d') = Some r' /\ terminal r'.
Proof.
  intros Hr [(immich & fs & ud & now & ->)|(msg & now & ->)].
  - exists (set_completed immich fs fs ud now r). split; [|left; reflexivity].
    apply (find_row_update _ (set_completed _ _ _ _ _)); [reflexivity|exact Hr].
  - exists (set_failed msg now r). split; [|right; reflexivity].
    apply (find_row_update _ (set_failed _ _)); [reflexivity|exact Hr].
Qed.

Lemma process_loop_terminal (pending : list Row) (i : nat) (o : Orch) :
  shutdown_requested o = false ->
  List.NoDup (ids pending) ->
  (forall a, In a pending -> find_row (asset_id a) (assets (db o)) <> None) ->
  exists o',
    process_loop env cfg i pending o = (Ret tt, o')
    /\ (forall a, In a pending ->
          exists r', find_row (asset_id a) (assets (db o')) = Some r' /\ terminal r')
    /\ (forall id, ~ In id (ids pending) ->
          find_row id (assets (db o')) = find_row id (assets (db o))).
Proof.
  revert i o. induction pending as [|a rest IH]; intros i o Hf Hn Hex.
  - exists o. split; [reflexivity|]. split; [intros a []|reflexivity].
  - cbn [process_loop]. rewrite Hf, bind_eq.
    unfold _process_asset_with_retries, range.
    destruct good as (Hm & _).
    destruct (attempts_terminal (asset_id a) (Z.to_nat (max_retries cfg)) 0 o)
      as (b & o1 & -> & Hf1 & Hdb1); [lia|lia|].
    rewrite bind_eq.
    destruct (update_progress_ok i o1) as (o2 & -> & Ha2 & Hf2).
    inversion Hn as [|? ? Hnotin Hn']; subst.
    assert (Hother : forall id, id <> asset_id a ->
              find_row id (assets (db o2)) = find_row id (assets (db o))).
    { intros id Hid. rewrite Ha2.
      apply (find_row_mark_other id (asset_id a)); [congruence|exact Hdb1]. }
    destruct (IH (S i) o2) as (o' & E & Hterm & Hrest).
    + congruence.
    + exact Hn'.
    + intros x Hx. rewrite Hother; [apply Hex; right; exact Hx|].
      intros Hid. apply Hnotin. rewrite <- Hid. apply in_map, Hx.
    + exists o'. split; [exact E|]. split.
      * intros x [<-|Hx]; [|apply Hterm, Hx].
        rewrite (Hrest (asset_id a) Hnotin), Ha2.
        destruct (find_row (asset_id a) (assets (db o))) as [r|] eqn:Er.
        -- apply (find_row_mark_same (asset_id a) (db o) (db o1) r Er Hdb1).
        -- exfalso. apply (Hex a); [left; reflexivity|exact Er].
      * intros id Hid. rewrite Hrest.
        -- apply Hother. intros ->. apply Hid. left. reflexivity.
        -- intros Hin. apply Hid. right. exact Hin.
Qed.
End Undisturbed.

Lemma NoDup_ids_filter (p : Row -> bool) (tbl : list Row) :
  List.NoDup (ids tbl) -> List.NoDup (ids (List.filter p tbl)).
Proof.
  unfold ids. induction tbl as [|x tbl IH]; simpl; intros H; [constructor|].
  inversion H as [|? ? Hx Hn]; subst.
  destruct (p x); simpl; [|apply IH, Hn].
  constructor; [|apply IH, Hn].
  intros Hin. apply Hx. apply in_map_iff in Hin. destruct Hin as (y & Hy & Hin).
  apply in_map_iff. exists y. split; [exact Hy|].
  apply List.filter_In in Hin. apply Hin.
Qed.

Lemma count_status_zero (s : string) (tbl : list Row) :
  Forall (fun r => status r <> s) tbl -> count_status s tbl = 0.
Proof.
  unfold count_status. induction 1 as [|r tbl Hr _ IH]; [reflexivity|].
  cbn [List.filter]. destruct (String.eqb_spec (status r) s); [contradiction|exact IH].
Qed.

(** A processing phase that nothing disturbs (no interrupt, every attempt
    ends with an upload or an [Exception], a usable configuration) returns,
    and every asset it took up has reached one of the two states the retry
    loop ends in; the rows it did not take up are as they were.  As every
    pending row is eligible, no row of the table is pending afterwards. *)
Theorem undisturbed_phase_leaves_no_pending (env : Env) (cfg : Config) (o : Orch) :
  undisturbed env -> usable cfg ->
  shutdown_requested o = false ->
  List.NoDup (ids (assets (db o))) ->
  let o' := exec (_process_assets env cfg) o in
  result (_process_assets env cfg) o = Ret tt
  /\ (forall r, In r (assets (db o)) -> eligible (max_retries cfg) r = true ->
        exists r', find_row (asset_id r) (assets (db o')) = Some r' /\ terminal r')
  /\ (forall r, In r (assets (db o)) -> eligible (max_retries cfg) r = false ->
        find_row (asset_id r) (assets (db o')) = Some r)
  /\ count_status "pending" (assets (db o')) = 0.
Proof.
  intros Hq Hg Hf Hn o'.
  set (L := select_pending (max_retries cfg) (assets (db o))).
  assert (HnL : List.NoDup (ids L)).
  { unfold ids. eapply Permutation_NoDup.
    - symmetry. apply Permutation_map. apply select_pending_perm.
    - apply NoDup_ids_filter, Hn. }
  assert (HexL : forall a, In a L -> find_row (asset_id a) (assets (db o)) <> None).
  { intros a Ha. apply select_pending_In in Ha. destruct Ha as [Ha _].
    rewrite (find_row_In _ _ Hn Ha). discriminate. }
  destruct (process_loop_terminal env cfg Hq Hg L 0 o Hf HnL HexL)
    as (o1 & E & Hterm & Hrest).
  assert (Eo : _process_assets env cfg o = (Ret tt, o1)).
  { assert (G : forall l, match l with
                          | [] => (Ret tt, o)
                          | _ :: _ => process_loop env cfg 0 l o
                          end = process_loop env cfg 0 l o)
      by (intros [|]; reflexivity).
    rewrite process_assets_unfold. fold L. rewrite G. exact E. }
  subst o'. unfold result, exec. rewrite Eo. cbn [fst snd].
  assert (Helig : forall r, In r (assets (db o)) -> eligible (max_retries cfg) r = true ->
            exists r', find_row (asset_id r) (assets (db o1)) = Some r' /\ terminal r').
  { intros r Hr He. apply Hterm. apply select_pending_In. auto. }
  assert (Hinel : forall r, In r (assets (db o)) -> eligible (max_retries cfg) r = false ->
            find_row (asset_id r) (assets (db o1)) = Some r).
  { intros r Hr He. rewrite Hrest; [apply find_row_In; assumption|].
    intros Hin. apply in_map_iff in Hin. destruct Hin as (a & Hid & Ha).
    apply select_pending_In in Ha. destruct Ha as [Ha Hea].
    assert (a = r) by (apply (NoDup_ids_inj (assets (db o))); assumption).
    congruence. }
  split; [reflexivity|]. split; [exact Helig|]. split; [exact Hinel|].
  apply count_status_zero. apply List.Forall_forall. intros r' Hr' Hp.
  assert (Hn1 : List.NoDup (ids (assets (db o1)))).
  { pose proof (keeps_process_loop (fun d => List.NoDup (ids (assets d)))
                  (metadata_keeps_assets (fun t => List.NoDup (ids t)))
                  env cfg L 0) as K.
    unfold keeps, exec in K. specialize (K ltac:(
      apply List.Forall_forall; intros x _ d Hd; split; intros;
      cbn; rewrite ids_update by reflexivity; exact Hd) o Hn).
    rewrite E in K. exact K. }
  pose proof (find_row_In _ _ Hn1 Hr') as Hfind.
  destruct (in_dec string_dec (asset_id r') (ids L)) as [Hin|Hout].
  - apply in_map_iff in Hin. destruct Hin as (a & Hid & Ha).
    destruct (Hterm a Ha) as (r'' & Hr'' & Ht). rewrite Hid, Hfind in Hr''.
    injection Hr'' as <-. destruct Ht as [Ht|Ht]; rewrite Ht in Hp; discriminate.
  - rewrite (Hrest _ Hout) in Hfind.
    apply find_row_some in Hfind. destruct Hfind as [Hr0 _].
    apply Hout. apply in_map. apply select_pending_In. split; [exact Hr0|].
    apply eligible_spec. left. exact Hp.
Qed.

Lemma undisturbed_phase_leaves_no_pending_witness :
  let o' := exec (_process_assets flaky_env cfg3) (fresh_orch pending_db) in
  result (_process_assets flaky_env cfg3) (fresh_orch pending_db) = Ret tt
  /\ (forall r, In r (assets (db (fresh_orch pending_db))) ->
        eligible (max_retries cfg3) r = true ->
        exists r', find_row (asset_id r) (assets (db o')) = Some r' /\ terminal r')
  /\ (forall r, In r (assets (db (fresh_orch pending_db))) ->
        eligible (max_retries cfg3) r = false ->
        find_row (asset_id r) (assets (db o')) = Some r)
  /\ count_status "pending" (assets (db o')) = 0.
Proof.
  apply (undisturbed_phase_leaves_no_pending flaky_env cfg3 (fresh_orch pending_db)).
  - split; [reflexivity|]. intros id [|k]; reflexivity.
  - repeat split; try (simpl; lia); try discriminate.
    repeat constructor; simpl; lia.
  - reflexivity.
  - vm_compute. constructor; [intros [H|[]]; discriminate H|].
    constructor; [intros []|constructor].
Defined.

End RunExtras.

(** ** More on the command line *)

Module CliExtras.
Import Cli Orchestrator Vocabulary Samples CliFacts.

(** *** [int] of the decimal digits of a number *)

Lemma digits_value_char (d : N) (s : string) (a : Z) (b : bool) :
  (d < 10)%N ->
  digits_value (String (pretty_N_char d) s) a b = digits_value s (10 * a + Z.of_N d) true.
Proof.
  intros H.
  assert (d = 0 \/ d = 1 \/ d = 2 \/ d = 3 \/ d = 4 \/ d = 5 \/ d = 6 \/ d = 7
          \/ d = 8 \/ d = 9)%N as Hd by lia.
  repeat (destruct Hd as [->|Hd]); try subst d; cbn; f_equal; lia.
Qed.

Lemma digits_value_pretty_go (x : N) :
  (0 < x)%N ->
  exists k, 0 <= k /\ forall s a b,
    digits_value (pretty_N_go x s) a b = digits_value s (a * 10 ^ k + Z.of_N x) true.
Proof.
  induction (N.lt_wf_0 x) as [x _ IH]. intros Hx.
  assert (Hm : (x mod 10 < 10)%N) by (apply N.mod_lt; lia).
  assert (Hdiv : x = (10 * (x / 10) + x mod 10)%N) by (apply N.div_mod; lia).
  destruct (N.eq_dec (x / 10)%N 0%N) as [E|E].
  - exists 1. split; [lia|]. intros s a b. rewrite pretty_N_go_step by exact Hx.
    rewrite E, pretty_N_go_0, digits_value_char by exact Hm.
    f_equal. lia.
  - destruct (IH (x / 10)%N) as (k & Hk0 & Hk).
    + apply N.div_lt; lia.
    + lia.
    + exists (k + 1). split; [lia|]. intros s a b.
      rewrite pretty_N_go_step by exact Hx.
      rewrite Hk, digits_value_char by exact Hm. f_equal.
      rewrite Z.pow_add_r by lia. lia.
Qed.

Lemma is_digit_not_space (c : ascii) : is_digit c = true -> is_space c = false.
Proof.
  destruct c as [[] [] [] [] [] [] [] []]; intros H; try discriminate H; reflexivity.
Qed.

Lemma all_digits_lstrip (s : string) : all_digits s = true -> lstrip s = s.
Proof.
  destruct s as [|c s]; [reflexivity|]. cbn [all_digits lstrip].
  intros H. apply andb_prop in H. destruct H as [H _].
  rewrite (is_digit_not_space c H). reflexivity.
Qed.

Lemma all_digits_rstrip (s : string) : all_digits s = true -> rstrip s = s.
Proof.
  induction s as [|c s IH]; [reflexivity|]. cbn [all_digits rstrip].
  intros H. apply andb_prop in H. destruct H as [Hc Hs].
  rewrite (IH Hs), (is_digit_not_space c Hc). destruct s; reflexivity.
Qed.

Lemma all_digits_pretty_go (x : N) (s : string) :
  all_digits s = true -> all_digits (pretty_N_go x s) = true.
Proof.
  revert s. induction (N.lt_wf_0 x) as [x _ IH]. intros s Hs.
  destruct (N.eq_dec x 0%N) as [->|Hx]; [rewrite pretty_N_go_0; exact Hs|].
  rewrite pretty_N_go_step by lia. apply IH; [apply N.div_lt; lia|].
  cbn [all_digits]. rewrite Hs, andb_true_r.
  assert (Hm : (x mod 10 < 10)%N) by (apply N.mod_lt; lia).
  set (d := (x mod 10)%N) in *.
  assert (d = 0 \/ d = 1 \/ d = 2 \/ d = 3 \/ d = 4 \/ d = 5 \/ d = 6 \/ d = 7
          \/ d = 8 \/ d = 9)%N as Hd by lia.
  repeat (destruct Hd as [->|Hd]); try subst d; try rewrite Hd; reflexivity.
Qed.

Lemma py_int_digits (s : string) :
  all_digits s = true -> py_int s = digits_value s 0 false.
Proof.
  intros H. unfold py_int. rewrite (all_digits_lstrip s H), (all_digits_rstrip s H).
  destruct s as [|c s]; [reflexivity|].
  cbn [all_digits] in H. apply andb_prop in H. destruct H as [H _].
  destruct c as [[] [] [] [] [] [] [] []]; try discriminate H; reflexivity.
Qed.

(** [int(str(n))] is [n]: the count that the discovery writes under
    [total_assets] reads back as the number it was. *)
Lemma py_int_pretty (n : nat) : py_int (pretty n) = Some (Z.of_nat n).
Proof.
  unfold pretty, pretty_nat, pretty, pretty_N.
  destruct (decide (N.of_nat n = 0%N)) as [E|E].
  - assert (n = 0%nat) as -> by lia. reflexivity.
  - rewrite py_int_digits by (apply all_digits_pretty_go; reflexivity).
    destruct (digits_value_pretty_go (N.of_nat n)) as (k & _ & Hk); [lia|].
    rewrite Hk. cbn [digits_value]. f_equal. lia.
Qed.

(** *** What a parse keeps and what it sets *)

Lemma parse_turn_effect (s : string) (rest : list string) (ns : Args)
    (extras : list string) (sep : bool)
    (rest' : list string) (ns' : Args) (extras' : list string) (sep' : bool) :
  parse_turn s rest ns extras sep = Continue rest' ns' extras' sep' ->
  (ns' = ns \/ (exists a v, store a v ns = Some ns') \/ (exists a, ns' = store_true a ns))
  /\ (List.length rest' <= List.length rest)%nat
  /\ (extras' = (extras ++ [s])%list
      \/ (extras' = extras /\ sep = false
          /\ (rest' = rest
              \/ exists v, rest = v :: rest' /\ is_positional_like v = true))).
Proof.
  unfold parse_turn.
  destruct sep; [|destruct (String.eqb s "--");
                   [|destruct (parse_optional s) as [|a o e| |];
                     [|destruct a, e as [v|]; cbn [takes_argument]| |]]];
    repeat match goal with
           | |- Done _ = Continue _ _ _ _ -> _ => discriminate
           | |- Continue _ _ _ _ = Continue _ _ _ _ -> _ =>
             let H := fresh "H" in intros H; inversion H; subst; clear H
           | |- context [match store ?a ?v ?n with _ => _ end] =>
             destruct (store a v n) eqn:St
           | |- context [match ?l with [] => _ | _ :: _ => _ end] => destruct l
           | |- context [if ?b then _ else _] => destruct b eqn:Ev
           end.
  all: split;
    [first [left; reflexivity
           | right; left; eexists _, _; exact St
           | right; right;
             first [exists ScreenshotsOnly; reflexivity
                   | exists NoScreenshots; reflexivity
                   | exists Resume; reflexivity
                   | exists Reset; reflexivity
                   | exists DryRun; reflexivity]]|].
  all: split; [simpl; lia|].
  all: first
    [ left; reflexivity
    | right; split; [reflexivity|]; split; [reflexivity|];
      first [ left; reflexivity
            | right; eexists; split; [reflexivity|];
              apply andb_prop in Ev; apply Ev ] ].
Qed.

Section ParseInvariant.
Variable P : Args -> Prop.
Hypothesis P_store : forall a v ns ns', store a v ns = Some ns' -> P ns -> P ns'.
Hypothesis P_store_true : forall a ns, P ns -> P (store_true a ns).

Lemma parse_loop_invariant (n : nat) :
  forall (argv : list string) (ns : Args) (extras : list string) (sep : bool) (a : Args),
    (List.length argv <= n)%nat ->
    parse_loop argv ns extras sep = Parsed a -> P ns -> P a.
Proof.
  induction n as [|n IH]; intros [|s rest] ns extras sep a Hlen H Hns;
    try (simpl in Hlen; lia).
  - cbn [parse_loop] in H. destruct extras; [|discriminate]. injection H as <-. exact Hns.
  - cbn [parse_loop] in H. destruct extras; [|discriminate]. injection H as <-. exact Hns.
  - rewrite parse_loop_turn in H.
    destruct (parse_turn s rest ns extras sep) as [r|rest' ns' extras' sep'] eqn:T.
    { destruct (parse_turn_Done _ _ _ _ _ _ T) as (c & m & ->). discriminate. }
    destruct (parse_turn_effect _ _ _ _ _ _ _ _ _ T) as (Hns' & Hl & _).
    simpl in Hlen. apply (IH rest' ns' extras' sep' a); [lia|exact H|].
    destruct Hns' as [->|[(act & v & St)|(act & ->)]];
      [exact Hns|eapply P_store; eassumption|apply P_store_true, Hns].
Qed.
End ParseInvariant.

Section ParseFlag.
Variables (tok : string) (act : action) (get : Args -> bool).
Hypothesis tok_turn : forall rest ns extras,
  parse_turn tok rest ns extras false = Continue rest (store_true act ns) extras false.
Hypothesis tok_optional : is_positional_like tok = false.
Hypothesis get_act : forall ns, get (store_true act ns) = true.
Hypothesis get_store : forall a v ns ns',
  store a v ns = Some ns' -> get ns = true -> get ns' = true.
Hypothesis get_store_true : forall a ns, get ns = true -> get (store_true a ns) = true.

Lemma parse_loop_flag (n : nat) :
  forall (argv : list string) (ns : Args) (extras : list string) (sep : bool) (a : Args),
    (List.length argv <= n)%nat ->
    parse_loop argv ns extras sep = Parsed a ->
    In tok argv -> get a = true.
Proof.
  induction n as [|n IH]; intros [|s rest] ns extras sep a Hlen H Hin;
    try (simpl in Hlen; lia); try contradiction.
  rewrite parse_loop_turn in H.
  destruct (parse_turn s rest ns extras sep) as [r|rest' ns' extras' sep'] eqn:T.
  { destruct (parse_turn_Done _ _ _ _ _ _ T) as (c & m & ->). discriminate. }
  destruct (parse_turn_effect _ _ _ _ _ _ _ _ _ T) as (_ & Hl & Hcase).
  simpl in Hlen.
  destruct (parse_loop_Parsed n rest' ns' extras' sep' a ltac:(lia) H) as (He & _).
  destruct Hcase as [->|(-> & -> & Hrest)].
  { destruct extras; discriminate. }
  destruct Hin as [->|Hin].
  - rewrite tok_turn in T. injection T as <- <- <-.
    apply (parse_loop_invariant (fun ns => get ns = true) get_store get_store_true
             n rest (store_true act ns) extras false a); [lia|exact H|apply get_act].
  - apply (IH rest' ns' extras sep' a); [lia|exact H|].
    destruct Hrest as [->|(v & -> & Hv)]; [exact Hin|].
    destruct Hin as [->|Hin]; [congruence|exact Hin].
Qed.
End ParseFlag.

Lemma parse_args_resume (argv : list string) (a : Args) :
  parse_args argv = Parsed a -> In "--resume" argv -> resume a = true.
Proof.
  unfold parse_args. destruct (ambiguous_before_separator argv); [discriminate|].
  intros H. apply (parse_loop_flag "--resume" Resume resume) with
    (n := List.length argv) (ns := defaults) (extras := []) (sep := false);
    try exact H; try reflexivity; try lia.
  - intros act v ns ns' St. unfold store in St. destruct act; try discriminate;
      repeat match type of St with
             | context [if ?b then _ else _] => destruct b; [|discriminate]
             | context [match py_int ?v with _ => _ end] => destruct (py_int v); [|discriminate]
             end; injection St as <-; auto.
  - intros act ns. destruct act; simpl; auto.
Qed.

Lemma parse_args_reset (argv : list string) (a : Args) :
  parse_args argv = Parsed a -> In "--reset" argv -> reset a = true.
Proof.
  unfold parse_args. destruct (ambiguous_before_separator argv); [discriminate|].
  intros H. apply (parse_loop_flag "--reset" Reset reset) with
    (n := List.length argv) (ns := defaults) (extras := []) (sep := false);
    try exact H; try reflexivity; try lia.
  - intros act v ns ns' St. unfold store in St. destruct act; try discriminate;
      repeat match type of St with
             | context [if ?b then _ else _] => destruct b; [|discriminate]
             | context [match py_int ?v with _ => _ end] => destruct (py_int v); [|discriminate]
             end; injection St as <-; auto.
  - intros act ns. destruct act; simpl; auto.
Qed.

(** A command line that holds both [--resume] and [--reset] never gets to
    the orchestrator: the process ends in the parser or in the check of the
    arguments in [main], the files untouched; when the parse itself goes
    through, both flags are set and the exit status is 2. *)
Theorem resume_reset_rejected (env : Env) (cfg : Config) (argv : list string)
    (w : World) :
  In "--resume" argv -> In "--reset" argv ->
  (exists status message, main env cfg argv w = (SystemExit status message, w))
  /\ (forall args, parse_args argv = Parsed args ->
        resume args = true /\ reset args = true
        /\ exists message, main env cfg argv w = (SystemExit 2 message, w)).
Proof.
  intros H1 H2.
  assert (Hm : forall args, parse_args argv = Parsed args ->
            resume args = true /\ reset args = true
            /\ exists message, main env cfg argv w = (SystemExit 2 message, w)).
  { intros args H.
    pose proof (parse_args_resume argv args H H1) as Hr.
    pose proof (parse_args_reset argv args H H2) as Hs.
    split; [exact Hr|]. split; [exact Hs|].
    unfold main. rewrite H, Hr, Hs.
    destruct (screenshots_only args && no_screenshots args); eexists; reflexivity. }
  split; [|exact Hm].
  destruct (parse_args argv) as [args|status message] eqn:E.
  - destruct (Hm args eq_refl) as (_ & _ & m & Hmain). eauto.
  - unfold main. rewrite E. eauto.
Qed.

Lemma resume_reset_rejected_witness :
  (exists status message,
      main failing_env cfg3 ["--reset"; "--type"; "video"; "--resume"] no_files
      = (SystemExit status message, no_files))
  /\ (forall args,
        parse_args ["--reset"; "--type"; "video"; "--resume"] = Parsed args ->
        resume args = true /\ reset args = true
        /\ exists message,
             main failing_env cfg3 ["--reset"; "--type"; "video"; "--resume"] no_files
             = (SystemExit 2 message, no_files)).
Proof.
  apply (resume_reset_rejected failing_env cfg3
           ["--reset"; "--type"; "video"; "--resume"] no_files).
  - simpl. auto.
  - simpl. auto.
Defined.

(** Whatever the command line, the discovery asks the export tool for one
    of three lists: all assets, the images or the videos, always with
    [--no-screenshots] and never with [--screenshots-only]; the value kept
    under [include_screenshots] is always [False]. *)
Theorem discovery_command (argv : list string) (args : Args) :
  parse_args argv = Parsed args ->
  (swift_args args = ["list-assets"; "--no-screenshots"]
   \/ swift_args args = ["list-assets"; "--type"; "image"; "--no-screenshots"]
   \/ swift_args args = ["list-assets"; "--type"; "video"; "--no-screenshots"])
  /\ str_bool (negb (no_screenshots args)) = "False".
Proof.
  unfold parse_args. destruct (ambiguous_before_separator argv); [discriminate|].
  intros H.
  assert (Hp : no_screenshots args = true
               /\ In (type args) ["all"; "image"; "video"]).
  { apply (parse_loop_invariant
             (fun ns => no_screenshots ns = true
                        /\ In (type ns) ["all"; "image"; "video"]))
      with (n := List.length argv) (argv := argv) (ns := defaults)
           (extras := []) (sep := false); try exact H; try lia.
    - intros act v ns ns' St [Hn Ht]. unfold store in St.
      destruct act; try discriminate.
      + destruct (member v _); [|discriminate]. injection St as <-. auto.
      + destruct (member v _) eqn:Em; [|discriminate]. injection St as <-.
        split; [exact Hn|]. cbn [type]. unfold member in Em. cbn [existsb] in Em.
        destruct (String.eqb_spec v "image") as [->|_]; [simpl; auto|].
        destruct (String.eqb_spec v "video") as [->|_]; [simpl; auto|].
        destruct (String.eqb_spec v "all") as [->|_]; [simpl; auto|discriminate].
      + destruct (py_int v); [|discriminate]. injection St as <-. auto.
    - intros act ns [Hn Ht]. destruct act; simpl; auto.
    - split; [reflexivity|simpl; auto]. }
  destruct Hp as [Hn Ht]. unfold swift_args. rewrite Hn. split; [|reflexivity].
  destruct Ht as [<-|[<-|[<-|[]]]]; simpl; auto.
Qed.

Lemma discovery_command_witness :
  (swift_args (mkArgs "INFO" "video" false true 1 true false false)
   = ["list-assets"; "--no-screenshots"]
   \/ swift_args (mkArgs "INFO" "video" false true 1 true false false)
      = ["list-assets"; "--type"; "image"; "--no-screenshots"]
   \/ swift_args (mkArgs "INFO" "video" false true 1 true false false)
      = ["list-assets"; "--type"; "video"; "--no-screenshots"])
  /\ str_bool (negb (no_screenshots (mkArgs "INFO" "video" false true 1 true false false)))
     = "False".
Proof.
  apply (discovery_command ["--resume"; "--type"; "video"]).
  reflexivity.
Defined.

End CliExtras.

(** ** More on the backups *)

Module BackupExtras.
Import StateDB Vocabulary Samples MoreSamples StateDBFacts BackupFacts.










End BackupExtras.

(** ** The exit code and the discovery *)

Module ExitExtras.
Import StateDB Orchestrator Vocabulary Samples Invariants MoreSamples.
Import StateDBFacts OrchestratorFacts RunExtras CliExtras.

Lemma print_summary_spec (env : Env) (o : Orch) :
  exists o',
    _print_summary env o
    = (Ret (if count_status "failed" (assets (db o)) =? 0 then 0 else 1), o')
    /\ assets (db o') = assets (db o).
Proof. eexists. split; reflexivity. Qed.

Lemma run_body_Ret (env : Env) (cfg : Config) (args : Cli.Args) (o0 o : Orch) (c : Z) :
  Cli.dry_run args = false ->
  run_body env cfg args o0 = (Ret c, o) ->
  c = (if count_status "failed" (assets (db o)) =? 0 then 0 else 1).
Proof.
  intros Hdry H. unfold run_body in H. rewrite bind_eq in H.
  destruct (discovery_phase env args o0) as [[z|e] o1]; [|discriminate].
  rewrite Hdry, bind_eq in H.
  destruct (deliver (signal_before_processing env) o1) as [[[]|e] o2]; [|discriminate].
  rewrite bind_eq in H.
  destruct (_process_assets env cfg o2) as [[[]|e] o3]; [|discriminate].
  destruct (print_summary_spec env o3) as (o' & E & Ha).
  rewrite E in H. injection H as <- <-. rewrite Ha. reflexivity.
Qed.

(** On a run that is no dry run, the exit code 0 says that the environment
    was found in order, that the run got as far as the summary, and that no
    row of the state file it leaves is ['failed']; it does not say that no
    row is pending. *)
Theorem exit_zero_means_no_failure (env : Env) (cfg : Config) (args : Cli.Args)
    (w : World) :
  Cli.dry_run args = false ->
  fst (run env cfg args w) = 0 ->
  validate_environment env = Ret tt
  /\ exists d,
       state_file (snd (run env cfg args w)) = Some d
       /\ count_status "failed" (assets d) = 0.
Proof.
  intros Hdry H. unfold run in *.
  destruct (validate_environment env) as [[]|e].
  - split; [reflexivity|].
    destruct (run_body env cfg args (open_store env args w)) as [r o] eqn:E.
    cbn [fst snd state_file] in *. exists (db o). split; [reflexivity|].
    destruct r as [c|e]; cbn [exit_code_of] in H.
    + subst c. pose proof (run_body_Ret env cfg args _ _ _ Hdry E) as Hc.
      destruct (Z.eqb_spec (count_status "failed" (assets (db o))) 0); [assumption|discriminate].
    + destruct e; discriminate.
  - cbn [fst exit_code_of] in H. destruct e; discriminate.
Qed.

Lemma exit_zero_means_no_failure_witness :
  validate_environment interrupted_env = Ret tt
  /\ exists d,
       state_file (snd (run interrupted_env cfg3 Cli.defaults no_files)) = Some d
       /\ count_status "failed" (assets d) = 0.
Proof.
  apply (exit_zero_means_no_failure interrupted_env cfg3 Cli.defaults no_files).
  - reflexivity.
  - vm_compute. reflexivity.
Defined.

(** *** The discovery and the resume *)

Lemma resume_reads_total (env : Env) (args : Cli.Args) (o : Orch) (n : nat) :
  Cli.resume args = true ->
  records_total (pretty n) (db o) ->
  result (discovery_phase env args) o = Ret (Z.of_nat n)
  /\ db (exec (discovery_phase env args) o) = db o.
Proof.
  intros Hr Hm. unfold records_total in Hm.
  unfold result, exec, discovery_phase. rewrite bind_eq.
  change (lift_db (get_metadata "total_assets") o)
    with (Ret (sync_metadata (db o) !! "total_assets") : outcome (option string),
          mkOrch (db o) (directory o) (shutdown_requested o) (slept o) (ticks o)).
  cbv beta iota. rewrite Hm, Hr, py_int_pretty.
  split; reflexivity.
Qed.

Lemma discovery_records_total (env : Env) (args : Cli.Args) (o : Orch)
    (found : list asset_dict) :
  discover env (swift_args args) = ReplyList found ->
  Forall has_required_keys found ->
  result (_discover_assets env args) o = Ret (Z.of_nat (List.length found))
  /\ records_total (pretty (List.length found)) (db (exec (_discover_assets env args) o)).
Proof.
  intros Hd Hk. unfold result, exec, _discover_assets. rewrite Hd, bind_eq.
  destruct (StoreExtras.assets_data_Ret found Hk) as [rs Hrs].
  unfold lift_db at 1, add_assets. rewrite Hrs.
  split; [reflexivity|].
  unfold records_total, mbind, M_bind, bind, lift_db, set_metadata, modify, tick, ret.
  cbn [fst snd db sync_metadata].
  rewrite !lookup_insert_ne by discriminate. apply lookup_insert_eq.
Qed.

Section TotalKept.
Variable t : string.

Lemma total_kept_set (k v : string) :
  k <> "total_assets" -> keeps (records_total t) (lift_db (set_metadata k v)).
Proof.
  intros Hk. apply keeps_lift_db. intros d Hd. unfold records_total in *.
  cbn. rewrite lookup_insert_ne by exact Hk. exact Hd.
Qed.

Lemma total_kept_marks (id : string) : marks_keep (records_total t) id.
Proof. intros d Hd. split; intros; exact Hd. Qed.

Lemma total_kept_update_progress (env : Env) (cfg : Config) (i : nat) :
  keeps (records_total t) (update_progress env cfg i).
Proof.
  unfold update_progress.
  destruct (progress_update_interval cfg =? 0); [apply keeps_raise|].
  destruct (_ =? 0); [|apply keeps_ret].
  apply keeps_bind; [apply keeps_read; reflexivity|]. intros st.
  apply keeps_bind; [apply total_kept_set; discriminate|]. intros _.
  apply keeps_bind; [apply keeps_tick|]. intros n.
  apply total_kept_set; discriminate.
Qed.

Lemma total_kept_process_loop (env : Env) (cfg : Config) (pending : list Row) (i : nat) :
  keeps (records_total t) (process_loop env cfg i pending).
Proof.
  revert i. induction pending as [|a rest IH]; intros i o Ho; cbn [process_loop].
  - exact Ho.
  - unfold exec. destruct (shutdown_requested o); [exact Ho|].
    apply (keeps_bind _ (_process_asset_with_retries env cfg a)); [| |exact Ho].
    + apply keeps_attempts, total_kept_marks.
    + intros _. apply keeps_bind; [apply total_kept_update_progress|].
      intros _. apply IH.
Qed.

Lemma total_kept_processing (env : Env) (cfg : Config) :
  keeps (records_total t)
        (deliver (signal_before_processing env) ≫= λ _,
         _process_assets env cfg ≫= λ _, _print_summary env).
Proof.
  apply keeps_bind; [apply keeps_deliver|]. intros _.
  apply keeps_bind.
  - unfold _process_assets.
    apply keeps_bind; [apply keeps_read; reflexivity|].
    intros [|a rest]; [apply keeps_ret|]. apply total_kept_process_loop.
  - intros _. unfold _print_summary.
    apply keeps_bind; [apply keeps_read; reflexivity|]. intros st.
    apply keeps_bind; [apply keeps_tick|]. intros n.
    apply keeps_bind; [apply total_kept_set; discriminate|]. intros _. apply keeps_ret.
Qed.
End TotalKept.

(** A run with [--resume] after a run whose discovery went through does
    not ask the export tool again, whatever happened in that run after the
    discovery: it takes the count from [total_assets], which is the number
    of assets the first discovery found, and leaves the store as it is; the
    filters of its own command line play no part. *)
Theorem resume_skips_discovery (env env' : Env) (cfg : Config) (args args' : Cli.Args)
    (o : Orch) (found : list asset_dict) :
  discover env (swift_args args) = ReplyList found ->
  Forall has_required_keys found ->
  Cli.resume args = false ->
  Cli.resume args' = true ->
  let o1 := exec (run_body env cfg args) o in
  result (discovery_phase env' args') o1 = Ret (Z.of_nat (List.length found))
  /\ db (exec (discovery_phase env' args') o1) = db o1.
Proof.
  intros Hd Hk Hr Hr' o1. apply resume_reads_total; [exact Hr'|].
  subst o1. unfold exec, run_body. rewrite bind_eq.
  assert (E : discovery_phase env args o = _discover_assets env args o).
  { unfold discovery_phase. rewrite bind_eq.
    change (lift_db (get_metadata "total_assets") o)
      with (Ret (sync_metadata (db o) !! "total_assets") : outcome (option string),
            mkOrch (db o) (directory o) (shutdown_requested o) (slept o) (ticks o)).
    cbv beta iota. rewrite Hr. destruct o; reflexivity. }
  rewrite E.
  destruct (discovery_records_total env args o found Hd Hk) as (Hres & Hrec).
  unfold result, exec in Hres, Hrec.
  destruct (_discover_assets env args o) as [r o2]. cbn [fst snd] in Hres, Hrec.
  subst r. destruct (Cli.dry_run args); [exact Hrec|].
  apply (total_kept_processing _ env cfg o2 Hrec).
Qed.

(** A discovery that fails (the export tool raises, or answers with
    something that is no list) ends a run that does not resume before any
    asset is inserted or processed: the exit code is that of the exception,
    never 0, and the state file holds what the store held when it was
    opened. *)
Theorem failed_discovery_aborts (env : Env) (cfg : Config) (args : Cli.Args) (w : World) :
  validate_environment env = Ret tt ->
  Cli.resume args = false ->
  (forall found, discover env (swift_args args) <> ReplyList found) ->
  let o := open_store env args w in
  exists e,
    result (_discover_assets env args) o = Raise e
    /\ run env cfg args w = (exit_code_of (Raise e), mkWorld (Some (db o)) (siblings w))
    /\ fst (run env cfg args w) <> 0.
Proof.
  intros Hv Hr Hd o.
  assert (Ho : o = mkOrch (db o) (siblings w) false [] 0).
  { subst o. unfold open_store. rewrite Hr. reflexivity. }
  assert (H : exists e, _discover_assets env args o = (Raise e, o)).
  { unfold _discover_assets.
    destruct (discover env (swift_args args)) as [found| |e]; [|eauto|eauto].
    destruct (Hd found eq_refl). }
  destruct H as (e & He). exists e.
  assert (Hrun : run env cfg args w
                 = (exit_code_of (Raise e), mkWorld (Some (db o)) (siblings w))).
  { unfold run. rewrite Hv. fold o. unfold run_body. rewrite bind_eq.
    unfold discovery_phase. rewrite bind_eq.
    change (lift_db (get_metadata "total_assets") o)
      with (Ret (sync_metadata (db o) !! "total_assets") : outcome (option string),
            mkOrch (db o) (directory o) (shutdown_requested o) (slept o) (ticks o)).
    cbv beta iota. rewrite Hr.
    replace (mkOrch (db o) (directory o) (shutdown_requested o) (slept o) (ticks o))
      with o by (destruct o; reflexivity).
    rewrite He. rewrite Ho. reflexivity. }
  split; [unfold result; rewrite He; reflexivity|]. split; [exact Hrun|].
  rewrite Hrun. cbn [fst exit_code_of]. destruct e; discriminate.
Qed.

Lemma resume_skips_discovery_witness :
  let o1 := exec (run_body failing_env cfg3 Cli.defaults) (fresh_orch empty_db) in
  result (discovery_phase interrupted_env
            (Cli.mkArgs "INFO" "video" false true 1 true false false)) o1
  = Ret (Z.of_nat (List.length two_assets))
  /\ db (exec (discovery_phase interrupted_env
                 (Cli.mkArgs "INFO" "video" false true 1 true false false)) o1)
     = db o1.
Proof.
  apply (resume_skips_discovery failing_env interrupted_env cfg3 Cli.defaults
           (Cli.mkArgs "INFO" "video" false true 1 true false false)
           (fresh_orch empty_db) two_assets).
  - reflexivity.
  - repeat constructor; eexists; vm_compute; reflexivity.
  - reflexivity.
  - reflexivity.
Defined.

Lemma failed_discovery_aborts_witness :
  let o := open_store broken_tool_env Cli.defaults no_files in
  exists e,
    result (_discover_assets broken_tool_env Cli.defaults) o = Raise e
    /\ run broken_tool_env cfg3 Cli.defaults no_files
       = (exit_code_of (Raise e), mkWorld (Some (db o)) (siblings no_files))
    /\ fst (run broken_tool_env cfg3 Cli.defaults no_files) <> 0.
Proof.
  apply (failed_discovery_aborts broken_tool_env cfg3 Cli.defaults no_files).
  - reflexivity.
  - reflexivity.
  - intros found H. discriminate H.
Defined.

End ExitExtras.
